(** * radio-host: the Wikipedia-to-dialogue pipeline ([pipeline.py])

    A shallow embedding of the pure parts of [pipeline.py] and of the
    effectful parts as state-passing functions over an explicit world.

    Python [str] values are modelled as lists of code points restricted to
    the range 0..255 ([list ascii]); on that range [str.isspace], the
    character classes of [re] and [len] are as defined below. *)

From Stdlib Require Import Ascii String List Arith ZArith QArith Bool Lia.
From stdpp Require Import gmap strings.
Import ListNotations.

Local Open Scope list_scope.

(** ** Text *)

Module Text.

Definition text := list ascii.

(** A Python string literal. *)
Definition lit (s : string) : text := list_ascii_of_string s.
#[global] Arguments lit : simpl never.

Definition code (c : ascii) : nat := nat_of_ascii c.

Definition between (lo hi : nat) (c : ascii) : bool :=
  (lo <=? code c) && (code c <=? hi).

(** [str.isspace] and the class [\s] of a [str] pattern: TAB..CR, FS..US,
    SPACE, NEL and NBSP. *)
Definition is_space (c : ascii) : bool :=
  between 9 13 c || between 28 31 c || (code c =? 32) || (code c =? 133)
  || (code c =? 160).

(** [[a-z]], [[A-Z]], [[A-Za-z]], [\d], [[.,;:]]. *)
Definition is_lower (c : ascii) : bool := between 97 122 c.
Definition is_upper (c : ascii) : bool := between 65 90 c.
Definition is_letter (c : ascii) : bool := is_upper c || is_lower c.
Definition is_digit (c : ascii) : bool := between 48 57 c.
Definition is_punct (c : ascii) : bool :=
  (code c =? 46) || (code c =? 44) || (code c =? 59) || (code c =? 58).

Definition is_char (a c : ascii) : bool := Ascii.eqb a c.

#[global] Arguments is_space : simpl never.
#[global] Arguments is_lower : simpl never.
#[global] Arguments is_upper : simpl never.
#[global] Arguments is_letter : simpl never.
#[global] Arguments is_digit : simpl never.
#[global] Arguments is_punct : simpl never.
#[global] Arguments is_char : simpl never.

Definition newline : ascii := "010"%char.
Definition lbracket : ascii := "["%char.
Definition rbracket : ascii := "]"%char.
Definition space : ascii := " "%char.

Fixpoint take_while (p : ascii -> bool) (s : text) : text :=
  match s with
  | [] => []
  | c :: r => if p c then c :: take_while p r else []
  end.

Fixpoint drop_while (p : ascii -> bool) (s : text) : text :=
  match s with
  | [] => []
  | c :: r => if p c then drop_while p r else s
  end.

(** [s.lstrip()], [s.rstrip()], [s.strip()]. *)
Definition lstrip (s : text) : text := drop_while is_space s.
Definition rstrip (s : text) : text := rev (drop_while is_space (rev s)).
Definition strip (s : text) : text := rstrip (lstrip s).

(** Neither the first nor the last character is white space. *)
Definition trimmed (s : text) : Prop :=
  (forall c r, s = c :: r -> is_space c = false)
  /\ (forall r c, s = r ++ [c] -> is_space c = false).

(** [s.split("\n")]: never empty, [[""]] for the empty string. *)
Fixpoint split_lines (s : text) : list text :=
  match s with
  | [] => [[]]
  | c :: r =>
      if is_char newline c then [] :: split_lines r
      else match split_lines r with
           | l :: ls => (c :: l) :: ls
           | [] => [[c]]
           end
  end.

(** ["\n".join(parts)]. *)
Fixpoint join_lines (parts : list text) : text :=
  match parts with
  | [] => []
  | [p] => p
  | p :: ps => p ++ newline :: join_lines ps
  end.

(** The lines of a concatenation: the last line of the first part and the
    first line of the second part make one line. *)
Fixpoint glue (la lb : list text) : list text :=
  match la with
  | [] => lb
  | [x] => match lb with
           | y :: lb' => (x ++ y) :: lb'
           | [] => [x]
           end
  | l :: la' => l :: glue la' lb
  end.

End Text.

(** ** The text normalizer, [clean_wikipedia_text] *)

Module Normalizer.
Import Text.

(** [re.sub(r"\[[^\]]*\]", "", text)], as a left-to-right scan.  [pending]
    holds, reversed, the characters read since an opening bracket that has
    not met its closing bracket yet: they are dropped when it comes, and
    kept if the text ends first. *)
Fixpoint scan_citations (pending : option text) (s : text) : text :=
  match s with
  | [] => match pending with
          | Some buf => rev buf
          | None => []
          end
  | c :: r =>
      match pending with
      | None =>
          if is_char lbracket c then scan_citations (Some [c]) r
          else c :: scan_citations None r
      | Some buf =>
          if is_char rbracket c then scan_citations None r
          else scan_citations (Some (c :: buf)) r
      end
  end.

Definition remove_citations (s : text) : text := scan_citations None s.

(** [re.sub(r"(P)(Q)", r"\1 \2", text)] for two one-character classes: the
    scan resumes after the second character of a match. *)
Fixpoint insert_space (p q : ascii -> bool) (s : text) : text :=
  match s with
  | a :: (b :: r) as t =>
      if p a && q b then a :: space :: b :: insert_space p q r
      else a :: insert_space p q t
  | _ => s
  end.

(** [re.sub(r"\s+", " ", text)], as a left-to-right scan: [in_run] says
    that the previous character belonged to the run being replaced. *)
Fixpoint scan_spaces (in_run : bool) (s : text) : text :=
  match s with
  | [] => []
  | c :: r =>
      if is_space c then
        if in_run then scan_spaces true r else space :: scan_spaces true r
      else c :: scan_spaces false r
  end.

Definition collapse_spaces (s : text) : text := scan_spaces false s.

(** [clean_wikipedia_text]. *)
Definition clean_wikipedia_text (t : text) : text :=
  let t := remove_citations t in
  let t := insert_space is_lower is_upper t in
  let t := insert_space is_punct is_letter t in
  let t := insert_space is_letter is_digit t in
  let t := insert_space is_digit is_letter t in
  let t := collapse_spaces t in
  strip t.

End Normalizer.

(** ** The transcript parser, [parse_conversation] *)

Module Parser.
Import Text.

(** Case folding of [re.IGNORECASE] on the letters of the pattern. *)
Definition fold_case (c : ascii) : ascii :=
  if is_upper c then ascii_of_nat (code c + 32) else c.

Definition is_char_ci (a c : ascii) : bool :=
  Ascii.eqb (fold_case a) (fold_case c).

(** A literal of the pattern at the head of [s], ignoring case: the
    characters it matched and what follows them. *)
Fixpoint match_literal_ci (pat s : text) : option (text * text) :=
  match pat with
  | [] => Some ([], s)
  | a :: pat' =>
      match s with
      | [] => None
      | c :: r =>
          if is_char_ci a c then
            match match_literal_ci pat' r with
            | Some (m, rest) => Some (c :: m, rest)
            | None => None
            end
          else None
      end
  end.

Definition is_12 (c : ascii) : bool :=
  is_char "1"%char c || is_char "2"%char c.

(** Group 1, [(Speaker\s*[12])], at the head of [s].  The greedy [\s*]
    never gives a character back: the character it would give back is
    white space, which [[12]] refuses. *)
Definition match_speaker (s : text) : option (text * text) :=
  match match_literal_ci (lit "Speaker") s with
  | None => None
  | Some (m, r1) =>
      match drop_while is_space r1 with
      | d :: r2 =>
          if is_12 d then Some (m ++ take_while is_space r1 ++ [d], r2)
          else None
      | [] => None
      end
  end.

Definition not_newline (c : ascii) : bool := negb (is_char newline c).

(** [\s*(.+)] at the head of [s], group 2.  [\s*] is greedy and backtracks:
    the longest run of white space is tried first, and a character is
    given back when [.+] finds nothing to match ([.] refuses only the
    newline). *)
Fixpoint match_utterance (s : text) : option text :=
  match s with
  | [] => None
  | c :: r =>
      if is_space c then
        match match_utterance r with
        | Some u => Some u
        | None => if not_newline c then Some (take_while not_newline s)
                  else None
        end
      else if not_newline c then Some (take_while not_newline s)
      else None
  end.

(** [re.match(r"(Speaker\s*[12]):\s*(.+)", line, re.IGNORECASE)] and
    [match.groups()]. *)
Definition match_line (line : text) : option (text * text) :=
  match match_speaker line with
  | None => None
  | Some (speaker_raw, r) =>
      match r with
      | c :: r' =>
          if is_char ":"%char c then
            match match_utterance r' with
            | Some u => Some (speaker_raw, u)
            | None => None
            end
          else None
      | [] => None
      end
  end.

Definition turn : Type := string * text.

(** The body of the loop over the lines. *)
Definition parse_line (line : text) : list turn :=
  let line := strip line in
  match line with
  | [] => []
  | _ =>
      match match_line line with
      | None => []
      | Some (speaker_raw, txt) =>
          let speaker_id :=
            if existsb (is_char "1"%char) speaker_raw then "speaker1"%string
            else "speaker2"%string in
          [(speaker_id, strip txt)]
      end
  end.

(** [parse_conversation]. *)
Definition parse_conversation (script : text) : list turn :=
  flat_map parse_line (split_lines (strip script)).

(** A literal none of whose characters matches white space. *)
Definition solid (pat : text) : Prop :=
  forall a c, In a pat -> is_space c = true -> is_char_ci a c = false.

End Parser.

(** ** The parsed document ([bs4]) *)

Module Dom.
Import Text.

(** A node of the tree that [BeautifulSoup(markup, "html.parser")] builds:
    a string or a tag with its name, its attribute dictionary and its
    children. *)
#[warnings="-register-all"]
Inductive node : Type :=
| NavigableString (s : text)
| Tag (name : string) (attrs : gmap string string) (contents : list node).

(** A document is the list of its top-level nodes. *)
Definition soup := list node.

(** [a == b] on nodes: strings by their characters; tags by name,
    attributes and contents, recursively ([Tag.__eq__]). *)
Fixpoint node_eqb (a b : node) : bool :=
  match a, b with
  | NavigableString s, NavigableString t => bool_decide (s = t)
  | Tag n1 at1 cs1, Tag n2 at2 cs2 =>
      bool_decide (n1 = n2) && bool_decide (at1 = at2)
      && (fix all2 (xs ys : list node) : bool :=
            match xs, ys with
            | [], [] => true
            | x :: xs', y :: ys' => node_eqb x y && all2 xs' ys'
            | _, _ => false
            end) cs1 cs2
  | _, _ => false
  end.

(** [node.descendants], in document order. *)
Fixpoint descendants (n : node) : list node :=
  match n with
  | NavigableString _ => []
  | Tag _ _ cs =>
      (fix go (cs : list node) : list node :=
         match cs with
         | [] => []
         | c :: cs' => c :: descendants c ++ go cs'
         end) cs
  end.

Definition all_nodes (doc : soup) : list node :=
  flat_map (fun n => n :: descendants n) doc.

Definition tag_name (n : node) : option string :=
  match n with
  | NavigableString _ => None
  | Tag name _ _ => Some name
  end.

Definition has_name (names : list string) (n : node) : bool :=
  match tag_name n with
  | Some name => existsb (String.eqb name) names
  | None => false
  end.

(** [soup.find_all(names)]: the tags with one of the names, in document
    order. *)
Definition find_all (names : list string) (doc : soup) : list node :=
  List.filter (has_name names) (all_nodes doc).

(** [tag.string]: the single string child, looked for through single tag
    children. *)
Fixpoint tag_string (n : node) : option text :=
  match n with
  | NavigableString s => Some s
  | Tag _ _ [c] => tag_string c
  | Tag _ _ _ => None
  end.

(** [tag.get_text(strip=True)]: the strings below the tag, each stripped,
    the empty ones left out, joined without a separator. *)
Definition stripped_strings (n : node) : list text :=
  flat_map (fun d => match d with
                     | NavigableString s =>
                         match strip s with
                         | [] => []
                         | s' => [s']
                         end
                     | Tag _ _ _ => []
                     end) (descendants n).

Definition get_text (n : node) : text := List.concat (stripped_strings n).

Definition has_attr (key value : string) (n : node) : bool :=
  match n with
  | Tag _ attrs _ => bool_decide (attrs !! key = Some value)
  | NavigableString _ => false
  end.

(** [soup.find(name, {key: value})]. *)
Definition find_attr (name key value : string) (doc : soup) : option node :=
  List.find (has_attr key value) (find_all [name] doc).

(** [soup.find(name, string=s)]: the first tag of that name whose
    [.string] is exactly [s]. *)
Definition find_string (name : string) (s : text) (doc : soup) : option node :=
  List.find (fun n => bool_decide (tag_string n = Some s)) (find_all [name] doc).

End Dom.

(** ** The content extractor *)

Module Extractor.
Import Text Dom.

Local Open Scope string_scope.

Definition heading : Type := string * text.

(** The loop of [extract_headings] over the [h2] tags. *)
Fixpoint h2_loop (headings : list heading) (h2_tags : list node) : list heading :=
  match h2_tags with
  | [] => headings
  | h2 :: rest =>
      if (3 <=? length headings)%nat then headings
      else
        let txt := get_text h2 in
        if negb (bool_decide (txt = [])) && negb (bool_decide (txt = lit "Contents"))
        then h2_loop (headings ++ [("H2", txt)]) rest
        else h2_loop headings rest
  end.

(** [extract_headings]. *)
Definition extract_headings (doc : soup) : list heading :=
  let headings :=
    match find_attr "h1" "id" "firstHeading" doc with
    | Some h1 => [("H1", get_text h1)]
    | None => []
    end in
  h2_loop headings (find_all ["h2"] doc).

(** The boundary node of a heading: [soup.find("h1", string=title)] for
    an ["H1"], [soup.find("h2", string=title)] otherwise. *)
Definition locate (doc : soup) (h : heading) : option node :=
  let '(level, title) := h in
  if String.eqb level "H1" then find_string "h1" title doc
  else find_string "h2" title doc.

(** The loop of [extract_combined_content] over the [h1], [h2] and [p]
    tags: the texts appended to [collected] from [tags] on. *)
Fixpoint collect (start_node end_node : node) (started : bool)
    (tags : list node) : list text :=
  match tags with
  | [] => []
  | tag :: rest =>
      if node_eqb tag start_node then collect start_node end_node true rest
      else if started then
        if has_name ["h1"; "h2"] tag && negb (node_eqb tag end_node) then []
        else if has_name ["p"] tag then
          let txt := get_text tag in
          if (50 <? length txt)%nat then txt :: collect start_node end_node started rest
          else collect start_node end_node started rest
        else collect start_node end_node started rest
      else collect start_node end_node started rest
  end.

(** [extract_combined_content]. *)
Definition extract_combined_content (doc : soup) (headings : list heading) : text :=
  match headings with
  | [] => []
  | first :: _ =>
      match locate doc first, locate doc (List.last headings first) with
      | Some start_node, Some end_node =>
          join_lines (collect start_node end_node false
                        (find_all ["h1"; "h2"; "p"] doc))
      | _, _ => []
      end
  end.

End Extractor.

(** ** The remote services: script generation, speech synthesis, stitching *)

Module Pipeline.
Import Text.

Inductive exn : Type :=
| Exception (msg : string)
| KeyError (key : string)
| Propagated (what : string).

Inductive result (A : Type) : Type :=
| Ok (a : A)
| Raise (e : exn).
Arguments Ok {A} a.
Arguments Raise {A} e.

(** The keyword arguments of [client.chat.completions.create] and of
    [requests.post]. *)
Record chat_request : Type := {
  chat_api_key : text;
  chat_model : string;
  chat_messages : list (string * text);
  chat_temperature : Q
}.

Record tts_request : Type := {
  tts_url : text;
  tts_api_key : text;
  tts_content_type : string;
  tts_text : text;
  tts_model_id : string;
  tts_stability : Q;
  tts_similarity_boost : Q
}.

(** What the process does towards the services: it builds a client, or
    sends a request. *)
Inductive event : Type :=
| OpenAIClient (api_key : text)
| ChatCompletion (r : chat_request)
| HttpPost (r : tts_request).

Record response : Type := {
  status_code : nat;
  content : text
}.

(** The samples of a [pydub.AudioSegment], up to their values: the format
    and the number of frames.  The frame rate, in Hz, is not zero. *)
Record pcm : Type := {
  channels : N;
  sample_width : N;
  frame_rate : positive;
  frame_count : N
}.

(** A [pydub.AudioSegment], as the chunks it was put together from, in
    the order in which they were appended to [AudioSegment.silent(0)]; a
    chunk is a decoded clip, with the bytes it was decoded from, or
    silence, with the milliseconds asked for.  [+] is concatenation. *)
Inductive chunk : Type :=
| Speech (mp3 : text) (clip : pcm)
| Silence (ms : nat).

Definition audio := list chunk.

(** [AudioSegment.silent(ms)]: [ms] milliseconds of silence; no samples at
    all for [silent(0)]. *)
Definition silent (ms : nat) : audio :=
  match ms with
  | O => []
  | _ => [Silence ms]
  end.

(** The samples of [AudioSegment.silent(ms)]: [int(11025 * (ms / 1000.0))]
    frames, mono, 16 bits wide, at 11025 Hz.  For the durations that the
    program asks for, 0 and the five pauses, the floating-point product
    truncates to the quotient below. *)
Definition silent_samples (ms : nat) : pcm :=
  {| channels := 1;
     sample_width := 2;
     frame_rate := 11025;
     frame_count := (11025 * N.of_nat ms / 1000)%N |}.

Definition chunk_samples (c : chunk) : pcm :=
  match c with
  | Speech _ clip => clip
  | Silence ms => silent_samples ms
  end.

(** [AudioSegment.__len__], [round(1000 * (frame_count / frame_rate))]:
    the nearest number of milliseconds, the even one of two that are
    equally near. *)
Definition len_ms (p : pcm) : N :=
  let n := (1000 * frame_count p)%N in
  let rate := N.pos (frame_rate p) in
  let q := (n / rate)%N in
  let r := (n mod rate)%N in
  if (2 * r <? rate)%N then q
  else if (rate <? 2 * r)%N then (q + 1)%N
  else if N.even q then q else (q + 1)%N.

(** [len(segment)] of one chunk on its own, in milliseconds. *)
Definition chunk_ms (c : chunk) : nat := N.to_nat (len_ms (chunk_samples c)).

(** What lies outside the process: the environment the keys are read
    from at import, the two remote services and the decoder (each call
    answers or fails with a description of the failure), the resampler
    of the audio library ([ratecv n r r'] is the number of frames that
    [n] frames at [r] Hz become at [r'] Hz), and the random generator
    ([draw k] is the outcome of the [k]-th call). *)
Record outside : Type := {
  OPENAI_API_KEY : option text;
  ELEVENLABS_API_KEY : option text;
  chat_service : chat_request -> string + text;
  tts_service : tts_request -> string + response;
  decode_mp3 : text -> string + pcm;
  ratecv : N -> N -> N -> N;
  draw : nat -> nat
}.

(** The outcome of a call that leaves the process: its value, or the
    error it raised, which is propagated. *)
Definition outcome {A} (r : string + A) : result A :=
  match r with
  | inl what => Raise (Propagated what)
  | inr a => Ok a
  end.

(** What a call changes: the events so far, oldest first, and the number
    of random draws made. *)
Record world : Type := {
  events : list event;
  draws : nat
}.

Definition M (A : Type) : Type := world -> result A * world.

Definition ret {A} (a : A) : M A := fun w => (Ok a, w).
Definition raise {A} (e : exn) : M A := fun w => (Raise e, w).
Definition bind {A B} (m : M A) (k : A -> M B) : M B :=
  fun w => match m w with
           | (Ok a, w') => k a w'
           | (Raise e, w') => (Raise e, w')
           end.

Notation "x <- m ;; k" := (bind m (fun x => k))
  (at level 100, m at next level, right associativity).

Definition of_result {A} (r : result A) : M A := fun w => (r, w).

(** [not KEY] for a key read with [os.getenv]: unset or empty. *)
Definition key_of (k : option text) : option text :=
  match k with
  | Some (c :: r) => Some (c :: r)
  | _ => None
  end.

Definition VOICE_MAP : gmap string string :=
  {[ "speaker1"%string := "3AMU7jXQuQa3oRvRqUmb"%string;
     "speaker2"%string := "OtEfb2LVzIE45wdYe54M"%string ]}.

Section Calls.
Variable out : outside.

Definition log (e : event) (w : world) : world :=
  {| events := events w ++ [e]; draws := draws w |}.

(** [OpenAI(api_key=key)]: no request is sent yet. *)
Definition OpenAI (key : text) : M text :=
  fun w => (Ok key, log (OpenAIClient key) w).

(** [client.chat.completions.create(...)] followed by
    [response.choices[0].message.content]. *)
Definition chat_completions_create (r : chat_request) : M text :=
  fun w => (outcome (chat_service out r), log (ChatCompletion r) w).

(** [requests.post(url, json=payload, headers=headers)]. *)
Definition requests_post (r : tts_request) : M response :=
  fun w => (outcome (tts_service out r), log (HttpPost r) w).

(** [AudioSegment.set_frame_rate]: samples already at the rate, or
    without frames, are left as they are; others are resampled. *)
Definition set_frame_rate (rate : positive) (p : pcm) : pcm :=
  if (frame_rate p =? rate)%positive then p
  else {| channels := channels p;
          sample_width := sample_width p;
          frame_rate := rate;
          frame_count := if (frame_count p =? 0)%N then 0%N
                         else ratecv out (frame_count p)
                                (N.pos (frame_rate p)) (N.pos rate) |}.

(** [seg1 + seg2], that is [seg1.append(seg2, crossfade=0)]: both are
    brought to the larger number of channels, the larger frame rate and
    the larger sample width, and the frames of the second follow those of
    the first.  Widening the channels (mono to stereo, for clips decoded
    from MP3) and the samples keeps the number of frames. *)
Definition append (p q : pcm) : pcm :=
  let rate := Pos.max (frame_rate p) (frame_rate q) in
  {| channels := N.max (channels p) (channels q);
     sample_width := N.max (sample_width p) (sample_width q);
     frame_rate := rate;
     frame_count := (frame_count (set_frame_rate rate p)
                     + frame_count (set_frame_rate rate q))%N |}.

(** The samples of a segment: those of its chunks, appended one after
    the other to [AudioSegment.silent(0)]. *)
Definition samples (a : audio) : pcm :=
  fold_left (fun acc c => append acc (chunk_samples c)) a (silent_samples 0).

(** [len(final_audio)], in milliseconds. *)
Definition duration (a : audio) : nat := N.to_nat (len_ms (samples a)).

(** [random.choice(seq)]. *)
Definition random_choice (seq : list nat) : M nat :=
  fun w => (Ok (nth (draw out (draws w) mod length seq) seq 0),
            {| events := events w; draws := S (draws w) |}).

(** [generate_script_from_content]. *)
Definition generate_script_from_content (clean_content : text)
    (prompt_template : option text) : M text :=
  match key_of (OPENAI_API_KEY out) with
  | None => raise (Exception "OPENAI_API_KEY not set")
  | Some key =>
      client <- OpenAI key ;;
      let PROMPT :=
        match prompt_template with
        | Some (c :: r) =>
            (c :: r) ++ newline :: newline :: lit "Content:" ++ newline :: clean_content
        | _ => lit "Content:" ++ newline :: clean_content
        end in
      answer <- chat_completions_create
                  {| chat_api_key := client;
                     chat_model := "gpt-5.2";
                     chat_messages := [("user"%string, PROMPT)];
                     chat_temperature := Qmake 6 10 |} ;;
      ret (strip answer)
  end.

(** [tts_turn_elevenlabs]; the two [print] calls before the last raise
    are left out. *)
Definition tts_turn_elevenlabs (txt : text) (speaker_id : string) : M audio :=
  match key_of (ELEVENLABS_API_KEY out) with
  | None => raise (Exception "ELEVENLABS_API_KEY not set")
  | Some key =>
      match VOICE_MAP !! speaker_id with
      | None => raise (KeyError speaker_id)
      | Some voice_id =>
          resp <- requests_post
                    {| tts_url := lit "https://api.elevenlabs.io/v1/text-to-speech/"
                                  ++ lit voice_id;
                       tts_api_key := key;
                       tts_content_type := "application/json";
                       tts_text := txt;
                       tts_model_id := "eleven_v3";
                       tts_stability := Qmake 5 10;
                       tts_similarity_boost := Qmake 75 100 |} ;;
          if negb (status_code resp =? 200) then
            raise (Exception "ElevenLabs TTS failed")
          else
            clip <- of_result (outcome (decode_mp3 out (content resp))) ;;
            ret [Speech (content resp) clip]
      end
  end.

Definition pause_choices : list nat := [200; 250; 300; 350; 400].

(** [natural_pause_ms]. *)
Definition natural_pause_ms : M nat := random_choice pause_choices.

(** The loop of [stitch_conversation_elevenlabs], from the turn of index
    [i] on; [n] is [len(turns)]. *)
Fixpoint stitch_loop (n : nat) (i : nat) (rest : list (string * text))
    (final_audio : audio) : M audio :=
  match rest with
  | [] => ret final_audio
  | (speaker, txt) :: rest' =>
      segment <- tts_turn_elevenlabs txt speaker ;;
      let final_audio := final_audio ++ segment in
      if (Z.of_nat i <? Z.of_nat n - 1)%Z then
        ms <- natural_pause_ms ;;
        stitch_loop n (S i) rest' (final_audio ++ silent ms)
      else stitch_loop n (S i) rest' final_audio
  end.

(** [stitch_conversation_elevenlabs]. *)
Definition stitch_conversation_elevenlabs (turns : list (string * text)) : M audio :=
  stitch_loop (length turns) 0 turns (silent 0).

End Calls.

End Pipeline.

(** ** Normal forms of the normalizer *)

Module NormalForm.
Import Text.

(** No character of class [p] is directly followed by one of class [q]. *)
Fixpoint no_pair (p q : ascii -> bool) (s : text) : bool :=
  match s with
  | a :: (b :: _) as t => negb (p a && q b) && no_pair p q t
  | _ => true
  end.

(** No opening bracket has a closing bracket somewhere after it. *)
Fixpoint no_citation (s : text) : bool :=
  match s with
  | [] => true
  | c :: r =>
      (if is_char lbracket c then negb (existsb (is_char rbracket) r) else true)
      && no_citation r
  end.

(** White space occurs only as single blanks between other characters. *)
Fixpoint no_space_after_space (s : text) : bool :=
  match s with
  | [] => true
  | c :: r =>
      (if is_space c then
         is_char space c
         && match r with
            | d :: _ => negb (is_space d)
            | [] => true
            end
       else true)
      && no_space_after_space r
  end.

Definition is_bracket (c : ascii) : bool :=
  is_char lbracket c || is_char rbracket c.

Definition brackets (s : text) : text := List.filter is_bracket s.

(** What the normalizer establishes, and leaves as it is. *)
Record normalized (t : text) : Prop := {
  nf_citation : no_citation t = true;
  nf_lower_upper : no_pair is_lower is_upper t = true;
  nf_punct_letter : no_pair is_punct is_letter t = true;
  nf_letter_digit : no_pair is_letter is_digit t = true;
  nf_digit_letter : no_pair is_digit is_letter t = true;
  nf_spaces : no_space_after_space t = true;
  nf_strip : strip t = t
}.

End NormalForm.

(** ** The transcript parser, in the words of its specification *)

Module ParserSpec.
Import Text Parser.

Definition speaker_of (digit : ascii) : string :=
  if is_char "1"%char digit then "speaker1"%string else "speaker2"%string.

(** A line that starts, after optional white space, with [Speaker] in any
    case, optional white space, [1] or [2] and a colon: the digit and
    what follows the colon. *)
Definition labelled (line : text) : option (ascii * text) :=
  match match_literal_ci (lit "Speaker") (lstrip line) with
  | None => None
  | Some (_, r) =>
      match drop_while is_space r with
      | d :: c :: rest =>
          if is_12 d && is_char ":"%char c then Some (d, rest) else None
      | _ => None
      end
  end.

(** The turn of a line when "at least one more character" follows the
    colon. *)
Definition turn_of_line_any (line : text) : option turn :=
  match labelled line with
  | Some (d, c :: rest) => Some (speaker_of d, strip (c :: rest))
  | _ => None
  end.

(** The turn of a line when at least one more character that is not white
    space follows the colon. *)
Definition turn_of_line (line : text) : option turn :=
  match labelled line with
  | Some (d, rest) =>
      match strip rest with
      | [] => None
      | u => Some (speaker_of d, u)
      end
  | None => None
  end.

Definition turns_of (f : text -> option turn) (script : text) : list turn :=
  flat_map (fun line => match f line with
                        | Some t => [t]
                        | None => []
                        end) (split_lines script).

(** The example script of the specification. *)
Definition example_script : text :=
  lit "Speaker1: Hello there" ++ newline :: lit "not a line" ++ newline
  :: lit "Speaker2: Hi!" ++ [newline].

(** A script whose first line has only a blank after the colon. *)
Definition blank_utterance_script : text :=
  lit "Speaker1: " ++ newline :: lit "Speaker2: Hi!".

End ParserSpec.

(** ** The content extractor, in the words of its specification *)

Module ExtractorSpec.
Import Text Dom Extractor.

Definition is_heading_tag (n : node) : bool := has_name ["h1"%string; "h2"%string] n.
Definition is_paragraph (n : node) : bool := has_name ["p"%string] n.

(** The page title element. *)
Definition title_element (doc : soup) : option node :=
  find_attr "h1" "id" "firstHeading" doc.

(** A subsection heading counts when its text is neither empty nor
    ["Contents"]. *)
Definition eligible (txt : text) : bool :=
  negb (bool_decide (txt = [])) && negb (bool_decide (txt = lit "Contents")).

(** The nodes of the first and of the last heading, when there is a
    heading and both are found. *)
Definition boundary_nodes (doc : soup) (headings : list heading)
  : option (node * node) :=
  match headings with
  | [] => None
  | first :: _ =>
      match locate doc first, locate doc (List.last headings first) with
      | Some start_node, Some end_node => Some (start_node, end_node)
      | _, _ => None
      end
  end.

(** The tags strictly after the first occurrence of a node. *)
Fixpoint after_first (n : node) (tags : list node) : list node :=
  match tags with
  | [] => []
  | t :: rest => if node_eqb t n then rest else after_first n rest
  end.

(** The tags before the first one that stops the scan. *)
Fixpoint before_stop (stop : node -> bool) (tags : list node) : list node :=
  match tags with
  | [] => []
  | t :: rest => if stop t then [] else t :: before_stop stop rest
  end.

(** The texts of the paragraphs among the tags, those longer than 50
    characters. *)
Definition paragraph_texts (tags : list node) : list text :=
  List.filter (fun txt => (50 <? length txt)%nat)
    (map get_text (List.filter is_paragraph tags)).

(** The scan stops at the first heading that is not the last heading's
    node. *)
Definition stops_as_stated (end_node : node) (t : node) : bool :=
  is_heading_tag t && negb (node_eqb t end_node).

(** The scan stops at the first heading that is neither the first nor the
    last heading's node. *)
Definition stops (start_node end_node : node) (t : node) : bool :=
  is_heading_tag t && negb (node_eqb t end_node) && negb (node_eqb t start_node).

Definition window (stop : node -> bool) (start_node : node) (doc : soup) : list node :=
  before_stop stop (after_first start_node (find_all ["h1"%string; "h2"%string; "p"%string] doc)).

Definition content_of (stop : node -> bool) (start_node : node) (doc : soup) : text :=
  join_lines (paragraph_texts (window stop start_node doc)).

End ExtractorSpec.

(** ** Documents *)

Module Documents.
Import Text Dom Extractor.

Definition element (name : string) (txt : string) : node :=
  Tag name ∅ [NavigableString (lit txt)].

Definition first_heading (txt : string) : node :=
  Tag "h1" {[ "id"%string := "firstHeading"%string ]} [NavigableString (lit txt)].

Definition fox : string :=
  "The quick brown fox jumps over the lazy dog and runs away fast.".
Definition cat : string :=
  "A second paragraph that is comfortably longer than fifty characters.".
Definition owl : string :=
  "A third paragraph, which also has more than fifty characters in it.".

(** A page without title element: a section heading and its paragraph. *)
Definition untitled_doc : soup :=
  [element "h2" "History"; element "p" fox].

(** A page without title element and without section heading. *)
Definition plain_doc : soup :=
  [element "p" fox; element "h2" "Contents"; element "p" cat].

(** A page in which the title element occurs twice. *)
Definition repeated_title_doc : soup :=
  [Tag "div" ∅
     [first_heading "Fox"; element "p" fox;
      first_heading "Fox"; element "p" cat;
      element "h2" "History"; element "p" owl]].

(** An ordinary page: title, contents box, introduction and sections. *)
Definition article_doc : soup :=
  [Tag "body" ∅
     [first_heading "Fox"; element "p" fox; element "p" "Short.";
      element "h2" "Contents";
      element "h2" "History"; element "p" cat;
      element "h2" "Habitat"; element "p" owl;
      element "h2" "References"]].

End Documents.

(** ** The remote calls, in the words of their specification *)

Module PipelineSpec.
Import Text Pipeline.

(** The error raised for a missing credential. *)
Definition ConfigurationError (variable : string) : exn :=
  Exception (variable ++ " not set").

(** "Prefix + content, or content alone if no prefix". *)
Definition prompt_as_stated (content : text) (prefix : option text) : text :=
  match prefix with
  | Some p => p ++ content
  | None => content
  end.

(** The prefix, a blank line, the label [Content:] and the content on the
    next line; without prefix (none, or the empty string), the label
    and the content. *)
Definition prompt (content : text) (prefix : option text) : text :=
  match key_of prefix with
  | Some p => p ++ [newline; newline] ++ lit "Content:" ++ [newline] ++ content
  | None => lit "Content:" ++ [newline] ++ content
  end.

(** The one-shot completion request: one user message, temperature 0.6. *)
Definition completion_request (key prompt : text) : chat_request :=
  {| chat_api_key := key;
     chat_model := "gpt-5.2";
     chat_messages := [("user"%string, prompt)];
     chat_temperature := Qmake 6 10 |}.

(** segment, pause, segment, ..., segment. *)
Fixpoint interleave (segments : list audio) (pauses : list nat) : audio :=
  match segments with
  | [] => []
  | [s] => s
  | s :: rest =>
      match pauses with
      | p :: ps => s ++ silent p ++ interleave rest ps
      | [] => s ++ interleave rest []
      end
  end.

(** The pauses of [n] consecutive draws, from draw number [d] on. *)
Definition pauses_drawn (out : outside) (d n : nat) : list nat :=
  map (fun k => nth (draw out k mod 5) pause_choices 0%nat) (seq d n).

Definition is_speech (c : chunk) : bool :=
  match c with
  | Speech _ _ => true
  | Silence _ => false
  end.

Definition speech_segments (a : audio) : audio := List.filter is_speech a.
Definition pause_segments (a : audio) : audio :=
  List.filter (fun c => negb (is_speech c)) a.

(** The segment synthesized for a turn, whatever the world. *)
Definition synthesized (out : outside) (t : string * text) (segment : audio) : Prop :=
  forall w, fst (tts_turn_elevenlabs out (snd t) (fst t) w) = Ok segment.

(** A clip of 100 ms for each byte, mono, 16 bits wide, at 44100 Hz. *)
Definition recorded (mp3 : text) : pcm :=
  {| channels := 1;
     sample_width := 2;
     frame_rate := 44100;
     frame_count := (4410 * N.of_nat (length mp3))%N |}.

(** A process without credentials, and one with both, whose services
    answer. *)
Definition no_credentials : outside :=
  {| OPENAI_API_KEY := None;
     ELEVENLABS_API_KEY := Some [];
     chat_service := fun _ => inl "unreachable"%string;
     tts_service := fun _ => inl "unreachable"%string;
     decode_mp3 := fun _ => inl "unreachable"%string;
     ratecv := fun n r r' => (n * r' / r)%N;
     draw := fun k => k |}.

Definition studio : outside :=
  {| OPENAI_API_KEY := Some (lit "sk-test");
     ELEVENLABS_API_KEY := Some (lit "xi-test");
     chat_service := fun _ => inr (lit " Speaker1: Hello there" ++ newline
                                   :: lit "Speaker2: Hi!" ++ [newline]);
     tts_service := fun r => inr {| status_code := 200; content := tts_text r |};
     decode_mp3 := fun mp3 => inr (recorded mp3);
     ratecv := fun n r r' => (n * r' / r)%N;
     draw := fun k => (3 * k + 1)%nat |}.

(** A process whose speech service answers with clips of 1152 frames,
    mono, 16 bits wide, at 11025 Hz, the format of
    [AudioSegment.silent]: nothing is resampled when they are stitched.
    Every pause drawn is the first choice. *)
Definition narrowband_clip : pcm :=
  {| channels := 1;
     sample_width := 2;
     frame_rate := 11025;
     frame_count := 1152 |}.

Definition narrowband : outside :=
  {| OPENAI_API_KEY := None;
     ELEVENLABS_API_KEY := Some (lit "xi-test");
     chat_service := fun _ => inl "unreachable"%string;
     tts_service := fun r => inr {| status_code := 200; content := tts_text r |};
     decode_mp3 := fun _ => inr narrowband_clip;
     ratecv := fun n r r' => (n * r' / r)%N;
     draw := fun _ => 0%nat |}.

(** The same with clips of 41784 frames at 44100 Hz, so that every
    pause is resampled, by [resample]. *)
Definition wideband_clip : pcm :=
  {| channels := 1;
     sample_width := 2;
     frame_rate := 44100;
     frame_count := 41784 |}.

Definition wideband (resample : N -> N -> N -> N) : outside :=
  {| OPENAI_API_KEY := None;
     ELEVENLABS_API_KEY := Some (lit "xi-test");
     chat_service := fun _ => inl "unreachable"%string;
     tts_service := fun r => inr {| status_code := 200; content := tts_text r |};
     decode_mp3 := fun _ => inr wideband_clip;
     ratecv := resample;
     draw := fun _ => 0%nat |}.

Definition fresh : world := {| events := []; draws := 0 |}.

Definition two_turns : list (string * text) :=
  [("speaker1"%string, lit "Hello there"); ("speaker2"%string, lit "Hi!")].

End PipelineSpec.

(** ** Shapes of texts, transcripts and requests *)

Module Shapes.
Import Text Parser Pipeline.

(** [a] is directly followed by [b] somewhere in [s]. *)
Definition adjacent (a b : ascii) (s : text) : Prop :=
  exists pre post, s = pre ++ a :: b :: post.

(** [s] holds a bracketed marker: an opening bracket and, somewhere after
    it, a closing bracket. *)
Definition has_marker (s : text) : Prop :=
  exists pre mid post, s = pre ++ lbracket :: mid ++ rbracket :: post.

(** The characters of [s] that are not white space. *)
Definition ink (s : text) : text :=
  List.filter (fun c => negb (is_space c)) s.

(** A turn as the parser yields them. *)
Definition well_formed (t : turn) : Prop :=
  (fst t = "speaker1"%string \/ fst t = "speaker2"%string)
  /\ snd t <> [] /\ strip (snd t) = snd t
  /\ existsb (is_char newline) (snd t) = false.

(** A turn written as a line of the expected transcript: [Speaker1: text]
    or [Speaker2: text]. *)
Definition render_turn (t : turn) : text :=
  lit "Speaker"
  ++ (if String.eqb (fst t) "speaker1" then "1"%char else "2"%char)
  :: lit ": " ++ snd t.

Definition render (turns : list turn) : text :=
  join_lines (map render_turn turns).

(** The request of the speech synthesizer for a text and a voice. *)
Definition speech_request (key : text) (voice_id : string) (txt : text) : tts_request :=
  {| tts_url := lit "https://api.elevenlabs.io/v1/text-to-speech/" ++ lit voice_id;
     tts_api_key := key;
     tts_content_type := "application/json";
     tts_text := txt;
     tts_model_id := "eleven_v3";
     tts_stability := Qmake 5 10;
     tts_similarity_boost := Qmake 75 100 |}.

(** What the synthesis of a turn does, seen from a world without past. *)
Definition attempt (out : outside) (t : string * text) : result audio * world :=
  tts_turn_elevenlabs out (snd t) (fst t) {| events := []; draws := 0 |}.

(** The events that the synthesis of a turn adds. *)
Definition added (out : outside) (t : string * text) : list event :=
  events (snd (attempt out t)).

(** The synthesis of a turn fails with [e], whatever the world. *)
Definition fails (out : outside) (t : string * text) (e : exn) : Prop :=
  forall w, fst (tts_turn_elevenlabs out (snd t) (fst t) w) = Raise e.

End Shapes.

(** ** More documents *)

Module MoreDocuments.
Import Text Dom Documents.

(** A page without title element, with a contents box and four sections. *)
Definition sections_doc : soup :=
  [Tag "body" ∅
     [element "h2" "Contents";
      element "h2" "History"; element "p" fox;
      Tag "h2" ∅ [];
      element "h2" "Habitat"; element "p" cat;
      element "h2" "Diet"; element "p" owl;
      element "h2" "References"]].

End MoreDocuments.

(** ** The two stages and the one-shot pipeline ([pipeline.py]) *)

Module Stages.
Import Text Dom Extractor Normalizer Parser Pipeline.

(** The arguments of [requests.get]. *)
Record get_request : Type := {
  get_url : text;
  get_headers : gmap string string
}.

(** The [headers] of [fetch_wikipedia_content]. *)
Definition browser_headers : gmap string string :=
  {[ "User-Agent"%string :=
       "Mozilla/5.0 (Windows NT 10.0; Win64; x64) AppleWebKit/537.36 (KHTML, like Gecko) Chrome/108.0.0.0 Safari/537.36"%string;
     "Accept-Language"%string := "en-US,en;q=0.9"%string;
     "Accept-Encoding"%string := "gzip, deflate, br"%string;
     "Connection"%string := "keep-alive"%string;
     "Accept"%string :=
       "text/html,application/xhtml+xml,application/xml;q=0.9,image/avif,image/webp,image/apng,*/*;q=0.8,application/signed-exchange;v=b3;q=0.7"%string ]}.

(** The web and the disk: a [GET] answers with a page, given here as
    [BeautifulSoup(response.text, "html.parser")] builds it, or fails
    ([requests.get] or [raise_for_status] raises); an export of audio to a
    file succeeds or fails. *)
Record surroundings : Type := {
  requests_get : get_request -> string + soup;
  export_mp3 : string -> audio -> string + unit
}.

(** What the server process has done: the pages it asked for and the
    exports of audio to a file it started, oldest first, and the world of
    the remote calls. *)
Record server : Type := {
  fetched : list get_request;
  exported : list (string * audio);
  calls : world
}.

Definition MS (A : Type) : Type := server -> result A * server.

Definition retS {A} (a : A) : MS A := fun s => (Ok a, s).
Definition bindS {A B} (m : MS A) (k : A -> MS B) : MS B :=
  fun s => match m s with
           | (Ok a, s') => k a s'
           | (Raise e, s') => (Raise e, s')
           end.

Notation "x <-- m ;; k" := (bindS m (fun x => k))
  (at level 100, m at next level, right associativity).

(** A remote call, made by the server process. *)
Definition lift {A} (m : M A) : MS A :=
  fun s => match m (calls s) with
           | (r, w) => (r, {| fetched := fetched s; exported := exported s; calls := w |})
           end.

Section Stage.
Variable out : outside.
Variable around : surroundings.

(** [fetch_wikipedia_content]. *)
Definition fetch_wikipedia_content (wiki_url : text) : MS soup :=
  fun s =>
    let request := {| get_url := wiki_url; get_headers := browser_headers |} in
    (outcome (requests_get around request),
     {| fetched := fetched s ++ [request]; exported := exported s; calls := calls s |}).

(** [generate_script_from_wikipedia]. *)
Definition generate_script_from_wikipedia (wiki_url : text)
    (prompt_template : option text) : MS text :=
  soup <-- fetch_wikipedia_content wiki_url ;;
  let headings := extract_headings soup in
  let combined_content := extract_combined_content soup headings in
  let clean_content := clean_wikipedia_text combined_content in
  script <-- lift (generate_script_from_content out clean_content prompt_template) ;;
  retS script.

(** [generate_mp3_from_script]. *)
Definition generate_mp3_from_script (script : text) : M audio :=
  let turns := parse_conversation script in
  stitch_conversation_elevenlabs out turns.

(** [process_wikipedia_url]. *)
Definition process_wikipedia_url (wiki_url : text)
    (prompt_template : option text) : MS (text * audio) :=
  soup <-- fetch_wikipedia_content wiki_url ;;
  let headings := extract_headings soup in
  let combined_content := extract_combined_content soup headings in
  let clean_content := clean_wikipedia_text combined_content in
  script <-- lift (generate_script_from_content out clean_content prompt_template) ;;
  let turns := parse_conversation script in
  final_audio <-- lift (stitch_conversation_elevenlabs out turns) ;;
  retS (script, final_audio).

End Stage.

End Stages.

(** ** The two routes of the server ([app.py]) *)

Module App.
Import Text Pipeline Stages.

(** The values of the JSON objects that the routes return. *)
Inductive json : Type :=
| JString (s : text)
| JTrue
| JNumber (q : Q).

(** A reply: the object given to [jsonify], and the status code. *)
Definition reply : Type := gmap string json * nat.

(** [str(e)]. *)
Definition str (e : exn) : text :=
  match e with
  | Exception msg => lit msg
  | KeyError key => lit ("'" ++ key ++ "'")
  | Propagated what => lit what
  end.

Definition error (msg : text) (status : nat) : reply :=
  ({[ "error"%string := JString msg ]}, status).

(** [data.get(field, '')], for a request whose JSON body is an object with
    string values. *)
Definition get (field : string) (data : gmap string text) : text :=
  default [] (data !! field).

Section Routes.
Variable out : outside.
Variable around : surroundings.
Variable PROMPT_TEMPLATE : option text.

(** [generate_script], the route [/generate-script]. *)
Definition generate_script (data : gmap string text) : server -> reply * server :=
  fun s =>
    let wiki_url := strip (get "wiki_url" data) in
    match wiki_url with
    | [] => (error (lit "Wikipedia URL is required") 400, s)
    | _ =>
        match generate_script_from_wikipedia out around wiki_url PROMPT_TEMPLATE s with
        | (Ok script, s') =>
            (({[ "success"%string := JTrue; "script"%string := JString script ]}, 200),
             s')
        | (Raise e, s') => (error (str e) 500, s')
        end
    end.

(** [final_audio.export(audio_path, format="mp3")]. *)
Definition export (audio_path : string) (final_audio : audio) : MS unit :=
  fun s =>
    (outcome (export_mp3 around audio_path final_audio),
     {| fetched := fetched s;
        exported := exported s ++ [(audio_path, final_audio)];
        calls := calls s |}).

(** [generate_mp3], the route [/generate-mp3]; the duration is the
    quotient of [len(final_audio)] by 1000. *)
Definition generate_mp3 (data : gmap string text) : server -> reply * server :=
  fun s =>
    let script := strip (get "script" data) in
    match script with
    | [] => (error (lit "Script is required") 400, s)
    | _ =>
        match (final_audio <-- lift (generate_mp3_from_script out script) ;;
               _ <-- export "static/audio/generated_audio.mp3" final_audio ;;
               retS final_audio) s with
        | (Ok final_audio, s') =>
            (({[ "success"%string := JTrue;
                 "audio_url"%string := JString (lit "/static/audio/generated_audio.mp3");
                 "duration"%string :=
                   JNumber (Qmake (Z.of_nat (duration out final_audio)) 1000) ]}, 200),
             s')
        | (Raise e, s') => (error (str e) 500, s')
        end
    end.

End Routes.

End App.

(** ** Pages *)

Module StageShapes.
Import Text Dom Extractor Normalizer Pipeline PipelineSpec Documents Stages.

(** The [GET] request for a page. *)
Definition page_request (wiki_url : text) : get_request :=
  {| get_url := wiki_url; get_headers := browser_headers |}.

(** The content that is sent for a page. *)
Definition content_of_page (doc : soup) : text :=
  clean_wikipedia_text (extract_combined_content doc (extract_headings doc)).

(** A web with one page, and a disk that takes every file. *)
Definition fox_url : text := lit "https://en.wikipedia.org/wiki/Fox".

Definition wikipedia : surroundings :=
  {| requests_get := fun r =>
       if bool_decide (get_url r = fox_url) then inr article_doc
       else inl "404 Client Error: Not Found"%string;
     export_mp3 := fun _ _ => inr tt |}.

(** A server process that has done nothing yet. *)
Definition idle : server := {| fetched := []; exported := []; calls := fresh |}.

End StageShapes.

(** * Properties *)

(** ** Characters and stripping *)

Module TextFacts.
Import Text.

Ltac by_cases_on c :=
  destruct c as [[] [] [] [] [] [] [] []]; vm_compute; intuition congruence.

Lemma space_not_lower c : is_space c = true -> is_lower c = false.
Proof. by_cases_on c. Qed.
Lemma space_not_upper c : is_space c = true -> is_upper c = false.
Proof. by_cases_on c. Qed.
Lemma space_not_letter c : is_space c = true -> is_letter c = false.
Proof. by_cases_on c. Qed.
Lemma space_not_digit c : is_space c = true -> is_digit c = false.
Proof. by_cases_on c. Qed.
Lemma space_not_punct c : is_space c = true -> is_punct c = false.
Proof. by_cases_on c. Qed.
Lemma upper_not_lower c : is_upper c = true -> is_lower c = false.
Proof. by_cases_on c. Qed.
Lemma letter_not_punct c : is_letter c = true -> is_punct c = false.
Proof. by_cases_on c. Qed.
Lemma digit_not_letter c : is_digit c = true -> is_letter c = false.
Proof. by_cases_on c. Qed.
Lemma letter_not_digit c : is_letter c = true -> is_digit c = false.
Proof. by_cases_on c. Qed.
Lemma space_not_lbracket c : is_space c = true -> is_char lbracket c = false.
Proof. by_cases_on c. Qed.
Lemma space_not_rbracket c : is_space c = true -> is_char rbracket c = false.
Proof. by_cases_on c. Qed.
Lemma newline_is_space c : is_char newline c = true -> is_space c = true.
Proof. by_cases_on c. Qed.
Lemma space_is_space : is_space space = true.
Proof. reflexivity. Qed.

Lemma is_char_eq a c : is_char a c = true <-> a = c.
Proof. unfold is_char. apply Ascii.eqb_eq. Qed.

(** [drop_while] leaves a suffix, behind a prefix of dropped characters. *)
Lemma drop_while_split p s :
  s = take_while p s ++ drop_while p s.
Proof.
  induction s as [|c r IH]; simpl; [reflexivity|].
  destruct (p c); simpl; congruence.
Qed.

Lemma take_while_all p s : forallb p (take_while p s) = true.
Proof.
  induction s as [|c r IH]; simpl; [reflexivity|].
  destruct (p c) eqn:E; simpl; [rewrite E|]; auto.
Qed.

Lemma drop_while_all p s : forallb p s = true -> drop_while p s = [].
Proof.
  induction s as [|c r IH]; simpl; [reflexivity|].
  destruct (p c); simpl; [auto | discriminate].
Qed.

Lemma drop_while_idem p s : drop_while p (drop_while p s) = drop_while p s.
Proof.
  induction s as [|c r IH]; simpl; [reflexivity|].
  destruct (p c) eqn:E; simpl; [auto | now rewrite E].
Qed.

Lemma drop_while_head p s c r : drop_while p s = c :: r -> p c = false.
Proof.
  induction s as [|d s IH]; simpl; [discriminate|].
  destruct (p d) eqn:E; [auto | congruence].
Qed.

Lemma drop_while_app_all p w s :
  forallb p w = true -> drop_while p (w ++ s) = drop_while p s.
Proof.
  induction w as [|c w IH]; simpl; [reflexivity|].
  destruct (p c); simpl; [auto | discriminate].
Qed.

Lemma drop_while_snoc p s c :
  drop_while p (s ++ [c]) =
  if forallb p s then (if p c then [] else [c]) else drop_while p s ++ [c].
Proof.
  induction s as [|d s IH]; simpl; [reflexivity|].
  destruct (p d); simpl; [exact IH | reflexivity].
Qed.

Lemma forallb_rev (p : ascii -> bool) s : forallb p (rev s) = forallb p s.
Proof.
  induction s as [|a l IH]; simpl; [reflexivity|].
  rewrite forallb_app, IH. simpl. rewrite andb_true_r. apply andb_comm.
Qed.

(** [rstrip], one character at a time. *)
Lemma rstrip_cons c s :
  rstrip (c :: s) =
  if is_space c && forallb is_space s then [] else c :: rstrip s.
Proof.
  unfold rstrip. simpl rev at 2.
  rewrite drop_while_snoc, forallb_rev.
  destruct (forallb is_space s) eqn:Hall.
  - rewrite andb_true_r.
    rewrite drop_while_all by (now rewrite forallb_rev). simpl.
    destruct (is_space c); reflexivity.
  - rewrite andb_false_r, rev_app_distr. reflexivity.
Qed.

Lemma rstrip_nil_iff s : rstrip s = [] <-> forallb is_space s = true.
Proof.
  induction s as [|c s IH]; [simpl; tauto|].
  rewrite rstrip_cons. simpl.
  destruct (is_space c && forallb is_space s); split; congruence.
Qed.

(** Stripping twice. *)

Lemma lstrip_rstrip_fixed s :
  lstrip s = s -> lstrip (rstrip s) = rstrip s.
Proof.
  unfold lstrip. destruct s as [|c r]; [reflexivity|].
  intro H. assert (E : is_space c = false).
  { eapply drop_while_head. exact H. }
  rewrite rstrip_cons, E. simpl. now rewrite E.
Qed.

Lemma rstrip_idem s : rstrip (rstrip s) = rstrip s.
Proof.
  unfold rstrip. now rewrite rev_involutive, drop_while_idem.
Qed.

Lemma strip_idem s : strip (strip s) = strip s.
Proof.
  unfold strip.
  rewrite lstrip_rstrip_fixed by apply drop_while_idem.
  apply rstrip_idem.
Qed.

End TextFacts.

(** ** The normalizer *)

Module NormalizerFacts.
Import Text Normalizer NormalForm TextFacts.

(** Induction over a text two characters at a time, as [insert_space]
    recurses. *)
Lemma text_ind2 (P : text -> Prop) :
  P [] -> (forall a, P [a]) ->
  (forall a b r, P r -> P (b :: r) -> P (a :: b :: r)) ->
  forall s, P s.
Proof.
  intros H0 H1 H2 s.
  assert (H : P s /\ forall a, P (a :: s)); [|tauto].
  induction s as [|b r [IH1 IH2]]; split; auto.
Qed.

Section Pairs.
Variables p q : ascii -> bool.

Lemma insert_space_head b r :
  exists r', insert_space p q (b :: r) = b :: r'.
Proof.
  destruct r as [|c r]; simpl; [eauto|].
  destruct (p b && q c); eauto.
Qed.

Lemma insert_space_cons a b r :
  insert_space p q (a :: b :: r) =
  if p a && q b then a :: space :: b :: insert_space p q r
  else a :: insert_space p q (b :: r).
Proof. reflexivity. Qed.

Lemma no_pair_cons a b r :
  no_pair p q (a :: b :: r) = negb (p a && q b) && no_pair p q (b :: r).
Proof. reflexivity. Qed.

Lemma no_pair_skip a s : p a = false -> no_pair p q (a :: s) = no_pair p q s.
Proof.
  intro H. destruct s as [|b r]; [reflexivity|].
  rewrite no_pair_cons, H. reflexivity.
Qed.

Lemma no_pair_tail a s : no_pair p q (a :: s) = true -> no_pair p q s = true.
Proof.
  destruct s as [|b r]; [reflexivity|].
  rewrite no_pair_cons. intros [_ H]%andb_prop. exact H.
Qed.

(** A text without the pair is left as it is. *)
Lemma insert_space_fixed s : no_pair p q s = true -> insert_space p q s = s.
Proof.
  induction s as [|a s IH]; [reflexivity|].
  destruct s as [|b r]; [reflexivity|].
  rewrite no_pair_cons. intros [H1 H2]%andb_prop.
  rewrite insert_space_cons. apply negb_true_iff in H1. rewrite H1.
  f_equal. apply IH, H2.
Qed.

Hypothesis disjoint : forall c, q c = true -> p c = false.
Hypothesis p_space : p space = false.
Hypothesis q_space : q space = false.

(** After the substitution the pair is gone. *)
Lemma insert_space_no_pair s : no_pair p q (insert_space p q s) = true.
Proof.
  induction s as [| a | a b r IHr IHbr] using text_ind2; try reflexivity.
  rewrite insert_space_cons.
  destruct (p a && q b) eqn:E.
  - apply andb_prop in E as [_ Hq].
    rewrite no_pair_cons, q_space, andb_false_r. simpl negb.
    rewrite no_pair_skip by exact p_space.
    rewrite no_pair_skip by (apply disjoint, Hq).
    exact IHr.
  - destruct (insert_space_head b r) as [r' Hr'].
    rewrite Hr' in *. rewrite no_pair_cons, E. exact IHbr.
Qed.

End Pairs.

(** Inserting blanks for one pair of classes does not bring back a pair of
    classes that both refuse the blank. *)
Lemma insert_space_keeps p q p' q' s :
  p' space = false -> q' space = false ->
  no_pair p' q' s = true -> no_pair p' q' (insert_space p q s) = true.
Proof.
  intros Hp Hq.
  induction s as [| a | a b r IHr IHbr] using text_ind2; auto.
  rewrite no_pair_cons. intros [H1 H2]%andb_prop.
  rewrite insert_space_cons.
  destruct (p a && q b).
  - rewrite no_pair_cons, Hq, andb_false_r. simpl negb.
    rewrite no_pair_skip by exact Hp.
    destruct r as [|c r]; [reflexivity|].
    destruct (insert_space_head p q c r) as [r' Hr'].
    rewrite Hr'.
    rewrite no_pair_cons in H2 |- *. apply andb_prop in H2 as [H2 H3].
    rewrite H2, andb_true_l, <- Hr'. apply IHr, H3.
  - destruct (insert_space_head p q b r) as [r' Hr'].
    rewrite Hr' in *. rewrite no_pair_cons, H1. apply IHbr, H2.
Qed.

(** Collapsing white space does not bring such a pair back either. *)
Lemma scan_spaces_keeps p q :
  p space = false -> q space = false ->
  forall s,
    (forall x, no_pair p q (x :: s) = true ->
               no_pair p q (x :: scan_spaces false s) = true)
    /\ (no_pair p q s = true ->
        no_pair p q (space :: scan_spaces true s) = true).
Proof.
  intros Hp Hq.
  induction s as [|c r [IH1 IH2]]; [split; auto|].
  split.
  - intros x. rewrite no_pair_cons. intros [H1 H2]%andb_prop.
    cbn [scan_spaces]. destruct (is_space c).
    + rewrite no_pair_cons, Hq, andb_false_r. cbn [negb andb].
      apply IH2. eapply no_pair_tail, H2.
    + rewrite no_pair_cons, H1. cbn [andb]. apply IH1, H2.
  - intros H. cbn [scan_spaces]. destruct (is_space c).
    + apply IH2. eapply no_pair_tail, H.
    + rewrite no_pair_cons, Hp. cbn [negb andb]. apply IH1, H.
Qed.

Lemma collapse_spaces_keeps p q s :
  p space = false -> q space = false ->
  no_pair p q s = true -> no_pair p q (collapse_spaces s) = true.
Proof.
  intros Hp Hq H. unfold collapse_spaces.
  rewrite <- (no_pair_skip p q space) by exact Hp.
  apply (scan_spaces_keeps p q Hp Hq s).
  now rewrite no_pair_skip.
Qed.

Lemma no_pair_drop_while p q f s :
  no_pair p q s = true -> no_pair p q (drop_while f s) = true.
Proof.
  induction s as [|c r IH]; [auto|].
  intro H. simpl. destruct (f c); [|exact H].
  eapply IH, no_pair_tail, H.
Qed.

Lemma no_pair_rstrip p q s :
  no_pair p q s = true -> no_pair p q (rstrip s) = true.
Proof.
  induction s as [|a s IH]; [auto|].
  intro H. rewrite rstrip_cons.
  destruct (is_space a && forallb is_space s); [reflexivity|].
  destruct s as [|b r]; [reflexivity|].
  rewrite no_pair_cons in H. apply andb_prop in H as [H1 H2].
  specialize (IH H2). rewrite rstrip_cons in IH |- *.
  destruct (is_space b && forallb is_space r); [reflexivity|].
  rewrite no_pair_cons, H1. exact IH.
Qed.

Lemma strip_keeps p q s :
  no_pair p q s = true -> no_pair p q (strip s) = true.
Proof. intro H. apply no_pair_rstrip, no_pair_drop_while, H. Qed.

(** *** Citations *)

Lemma existsb_filter (f g : ascii -> bool) s :
  (forall c, f c = true -> g c = true) ->
  existsb f (List.filter g s) = existsb f s.
Proof.
  intro H. induction s as [|c r IH]; [reflexivity|].
  simpl. destruct (g c) eqn:G; simpl; rewrite IH; [reflexivity|].
  destruct (f c) eqn:F; [|reflexivity].
  rewrite (H c F) in G. discriminate.
Qed.

Lemma existsb_filter_bracket s :
  existsb (is_char rbracket) (brackets s) = existsb (is_char rbracket) s.
Proof.
  apply existsb_filter. intros c H. unfold is_bracket. rewrite H. apply orb_true_r.
Qed.

(** Whether a text holds a citation depends on its brackets alone. *)
Lemma brackets_cons c r :
  brackets (c :: r) = if is_bracket c then c :: brackets r else brackets r.
Proof. reflexivity. Qed.

Lemma no_citation_cons c r :
  no_citation (c :: r) =
  (if is_char lbracket c then negb (existsb (is_char rbracket) r) else true)
  && no_citation r.
Proof. reflexivity. Qed.

Lemma no_citation_brackets s : no_citation (brackets s) = no_citation s.
Proof.
  induction s as [|c r IH]; [reflexivity|].
  rewrite brackets_cons, no_citation_cons. unfold is_bracket.
  destruct (is_char lbracket c) eqn:L; cbn [orb].
  - now rewrite no_citation_cons, L, IH, existsb_filter_bracket.
  - destruct (is_char rbracket c); [|exact IH].
    now rewrite no_citation_cons, L, IH.
Qed.

Lemma brackets_insert_space p q s :
  brackets (insert_space p q s) = brackets s.
Proof.
  induction s as [| a | a b r IHr IHbr] using text_ind2; try reflexivity.
  rewrite insert_space_cons. destruct (p a && q b).
  - unfold brackets in *. cbn [List.filter]. rewrite IHr.
    replace (is_bracket space) with false by reflexivity. reflexivity.
  - unfold brackets in *. cbn [List.filter] in *. now rewrite IHbr.
Qed.

Lemma space_not_bracket c : is_space c = true -> is_bracket c = false.
Proof.
  intro H. unfold is_bracket.
  now rewrite space_not_lbracket, space_not_rbracket.
Qed.

Lemma brackets_scan_spaces b s : brackets (scan_spaces b s) = brackets s.
Proof.
  revert b. induction s as [|c r IH]; intro b; [reflexivity|].
  unfold brackets in *. cbn [scan_spaces List.filter].
  destruct (is_space c) eqn:E.
  - rewrite (space_not_bracket c E).
    destruct b; [apply IH|]. cbn [List.filter].
    replace (is_bracket space) with false by reflexivity. apply IH.
  - cbn [List.filter]. now rewrite IH.
Qed.

Lemma brackets_drop_while s :
  brackets (drop_while is_space s) = brackets s.
Proof.
  induction s as [|c r IH]; [reflexivity|].
  simpl. destruct (is_space c) eqn:E; [|reflexivity].
  unfold brackets in *. simpl. now rewrite (space_not_bracket c E).
Qed.

Lemma brackets_rstrip s : brackets (rstrip s) = brackets s.
Proof.
  induction s as [|c r IH]; [reflexivity|].
  rewrite rstrip_cons.
  destruct (is_space c && forallb is_space r) eqn:E.
  - apply andb_prop in E as [Hc Hr].
    apply rstrip_nil_iff in Hr. rewrite Hr in IH.
    unfold brackets in *. simpl. now rewrite (space_not_bracket c Hc).
  - unfold brackets in *. simpl. now rewrite IH.
Qed.

Lemma brackets_strip s : brackets (strip s) = brackets s.
Proof. unfold strip, lstrip. now rewrite brackets_rstrip, brackets_drop_while. Qed.

Lemma existsb_rev (f : ascii -> bool) s : existsb f (rev s) = existsb f s.
Proof.
  induction s as [|c r IH]; [reflexivity|].
  simpl. rewrite existsb_app, IH. simpl. rewrite orb_false_r. apply orb_comm.
Qed.

Lemma no_rbracket_no_citation s :
  existsb (is_char rbracket) s = false -> no_citation s = true.
Proof.
  induction s as [|c r IH]; [reflexivity|].
  simpl. intros [_ H]%orb_false_elim. rewrite H, (IH H).
  destruct (is_char lbracket c); reflexivity.
Qed.

(** An opening bracket that meets no closing bracket is kept with all
    that follows it. *)
Lemma scan_citations_open s buf :
  existsb (is_char rbracket) s = false ->
  scan_citations (Some buf) s = rev buf ++ s.
Proof.
  revert buf. induction s as [|c r IH]; intros buf H.
  - simpl. now rewrite app_nil_r.
  - simpl in H. apply orb_false_elim in H as [Hc Hr].
    simpl. rewrite Hc, (IH _ Hr). simpl. now rewrite <- app_assoc.
Qed.

Lemma remove_citations_fixed s :
  no_citation s = true -> remove_citations s = s.
Proof.
  unfold remove_citations.
  induction s as [|c r IH]; [reflexivity|].
  simpl. intros [H1 H2]%andb_prop.
  destruct (is_char lbracket c).
  - apply negb_true_iff in H1. now rewrite scan_citations_open.
  - now rewrite IH.
Qed.

Lemma scan_citations_no_citation s :
  no_citation (scan_citations None s) = true
  /\ forall buf, existsb (is_char rbracket) buf = false ->
                 no_citation (scan_citations (Some buf) s) = true.
Proof.
  induction s as [|c r [IH1 IH2]]; split.
  - reflexivity.
  - intros buf H. simpl. apply no_rbracket_no_citation. now rewrite existsb_rev.
  - simpl. destruct (is_char lbracket c) eqn:L.
    + apply IH2. simpl. apply is_char_eq in L. now subst c.
    + simpl. now rewrite L.
  - intros buf H. simpl. destruct (is_char rbracket c) eqn:R; [exact IH1|].
    apply IH2. simpl. now rewrite R.
Qed.

Lemma remove_citations_no_citation s :
  no_citation (remove_citations s) = true.
Proof. apply scan_citations_no_citation. Qed.

(** *** White space *)

Lemma no_space_after_space_cons c r :
  no_space_after_space (c :: r) =
  (if is_space c then
     is_char space c
     && match r with
        | d :: _ => negb (is_space d)
        | [] => true
        end
   else true)
  && no_space_after_space r.
Proof. reflexivity. Qed.

(** The collapsed text is in normal form, and after a blank the scan does
    not emit another one. *)
Lemma scan_spaces_normal s :
  no_space_after_space (scan_spaces false s) = true
  /\ no_space_after_space (space :: scan_spaces true s) = true.
Proof.
  induction s as [|c r [IH1 IH2]]; [split; reflexivity|].
  cbn [scan_spaces]. destruct (is_space c) eqn:E; split; try assumption.
  - now rewrite no_space_after_space_cons, E.
  - rewrite !no_space_after_space_cons, E, IH1. reflexivity.
Qed.

Lemma collapse_spaces_normal s :
  no_space_after_space (collapse_spaces s) = true.
Proof. apply scan_spaces_normal. Qed.

(** A text in normal form is left as it is. *)
Lemma scan_spaces_fixed s :
  no_space_after_space s = true ->
  scan_spaces false s = s
  /\ (match s with
      | d :: _ => is_space d = false
      | [] => True
      end -> scan_spaces true s = s).
Proof.
  induction s as [|c r IH]; [split; reflexivity|].
  rewrite no_space_after_space_cons. intros [H1 H2]%andb_prop.
  destruct (IH H2) as [IH1 IH2]. cbn [scan_spaces].
  destruct (is_space c) eqn:E.
  - split; [|discriminate].
    apply andb_prop in H1 as [Hc Hr]. apply is_char_eq in Hc. subst c.
    rewrite IH2; [reflexivity|].
    destruct r; [exact I|]. now apply negb_true_iff.
  - rewrite IH1. split; reflexivity.
Qed.

Lemma collapse_spaces_fixed s :
  no_space_after_space s = true -> collapse_spaces s = s.
Proof. intro H. now apply scan_spaces_fixed. Qed.

Lemma normal_drop_while f s :
  no_space_after_space s = true ->
  no_space_after_space (drop_while f s) = true.
Proof.
  induction s as [|c r IH]; [auto|].
  intro H. simpl. destruct (f c); [|exact H].
  rewrite no_space_after_space_cons in H.
  apply andb_prop in H as [_ H]. auto.
Qed.

Lemma normal_rstrip s :
  no_space_after_space s = true -> no_space_after_space (rstrip s) = true.
Proof.
  induction s as [|c r IH]; [auto|].
  rewrite no_space_after_space_cons. intros [H1 H2]%andb_prop.
  rewrite rstrip_cons.
  destruct (is_space c && forallb is_space r) eqn:A; [reflexivity|].
  rewrite no_space_after_space_cons, (IH H2), andb_true_r.
  destruct (is_space c) eqn:E; [|reflexivity].
  apply andb_prop in H1 as [Hc Hr]. rewrite Hc. cbn [andb].
  destruct r as [|d r]; [reflexivity|].
  rewrite rstrip_cons. apply negb_true_iff in Hr.
  rewrite Hr. cbn [andb negb]. now rewrite Hr.
Qed.

Lemma strip_normal s :
  no_space_after_space s = true -> no_space_after_space (strip s) = true.
Proof. intro H. apply normal_rstrip, normal_drop_while, H. Qed.

(** *** The normal form of the output *)

Lemma clean_wikipedia_text_fixed t :
  normalized t -> clean_wikipedia_text t = t.
Proof.
  intros [H1 H2 H3 H4 H5 H6 H7]. unfold clean_wikipedia_text.
  rewrite (remove_citations_fixed t H1).
  rewrite (insert_space_fixed _ _ t H2), (insert_space_fixed _ _ t H3).
  rewrite (insert_space_fixed _ _ t H4), (insert_space_fixed _ _ t H5).
  now rewrite (collapse_spaces_fixed t H6).
Qed.

Ltac keep_no_pair :=
  repeat first
    [ apply strip_keeps
    | apply collapse_spaces_keeps; [reflexivity | reflexivity |]
    | apply insert_space_no_pair;
      [ first [ apply upper_not_lower | apply letter_not_punct
              | apply digit_not_letter | apply letter_not_digit ]
      | reflexivity | reflexivity ]
    | apply insert_space_keeps; [reflexivity | reflexivity |] ].

Lemma clean_wikipedia_text_normalized x :
  normalized (clean_wikipedia_text x).
Proof.
  unfold clean_wikipedia_text. split.
  - rewrite <- no_citation_brackets, brackets_strip.
    unfold collapse_spaces. rewrite brackets_scan_spaces.
    rewrite !brackets_insert_space, no_citation_brackets.
    apply remove_citations_no_citation.
  - keep_no_pair.
  - keep_no_pair.
  - keep_no_pair.
  - keep_no_pair.
  - apply strip_normal, collapse_spaces_normal.
  - apply strip_idem.
Qed.

(** C3. The text normalizer is idempotent: cleaning a cleaned text changes
    nothing. *)
Theorem clean_wikipedia_text_idempotent (x : text) :
  clean_wikipedia_text (clean_wikipedia_text x) = clean_wikipedia_text x.
Proof.
  apply clean_wikipedia_text_fixed, clean_wikipedia_text_normalized.
Qed.

(** C4, as the code has it. The normalizer maps ["theRepublic"] to
    ["the Republic"], ["India,is"] to ["India, is"], ["basin9"] to
    ["basin 9"], ["1200BCE"] to ["1200 BCE"], and ["text[12]more"] to
    ["textmore"]: the citation marker is removed, and the two lowercase
    words it separated are left joined. *)
Theorem clean_wikipedia_text_examples :
  clean_wikipedia_text (lit "theRepublic") = lit "the Republic"
  /\ clean_wikipedia_text (lit "India,is") = lit "India, is"
  /\ clean_wikipedia_text (lit "basin9") = lit "basin 9"
  /\ clean_wikipedia_text (lit "1200BCE") = lit "1200 BCE"
  /\ clean_wikipedia_text (lit "text[12]more") = lit "textmore".
Proof. repeat split. Qed.

(** C4, as stated, fails on its last example: no blank is put where the
    citation marker stood. *)
Lemma clean_wikipedia_text_citation_joins :
  clean_wikipedia_text (lit "text[12]more") <> lit "text more".
Proof. vm_compute. discriminate. Qed.

End NormalizerFacts.

(** ** Lines *)

Module LineFacts.
Import Text TextFacts.

Lemma split_lines_nonempty s : split_lines s <> [].
Proof.
  destruct s as [|c r]; simpl; [discriminate|].
  destruct (is_char newline c); [discriminate|].
  destruct (split_lines r); discriminate.
Qed.

(** No line holds a newline. *)
Lemma split_lines_no_newline s :
  Forall (fun l => existsb (is_char newline) l = false) (split_lines s).
Proof.
  induction s as [|c r IH]; simpl; [repeat constructor|].
  destruct (is_char newline c) eqn:E; [constructor; auto|].
  destruct (split_lines r) as [|l ls]; [repeat constructor; simpl; now rewrite E|].
  inversion IH; subst. constructor; [|assumption].
  simpl. now rewrite E.
Qed.

(** The lines of a text that is all white space are all white space. *)
Lemma split_lines_all_space s :
  forallb is_space s = true ->
  Forall (fun l => forallb is_space l = true) (split_lines s).
Proof.
  induction s as [|c r IH]; simpl; [repeat constructor|].
  intros [Hc Hr]%andb_prop. specialize (IH Hr).
  destruct (is_char newline c); [constructor; auto|].
  destruct (split_lines r) as [|l ls]; [repeat constructor; simpl; now rewrite Hc|].
  inversion IH; subst. constructor; [|assumption].
  simpl. now rewrite Hc.
Qed.

Lemma glue_cons l la lb : la <> [] -> glue (l :: la) lb = l :: glue la lb.
Proof. destruct la; [congruence | reflexivity]. Qed.

Lemma split_lines_app a b :
  split_lines (a ++ b) = glue (split_lines a) (split_lines b).
Proof.
  induction a as [|c a IH]; simpl.
  - pose proof (split_lines_nonempty b).
    destruct (split_lines b); [congruence | reflexivity].
  - destruct (is_char newline c).
    + rewrite IH. pose proof (split_lines_nonempty a).
      destruct (split_lines a); [congruence | reflexivity].
    + rewrite IH. pose proof (split_lines_nonempty a) as Ha.
      pose proof (split_lines_nonempty b) as Hb.
      destruct (split_lines a) as [|l [|l2 ls]]; [congruence | |].
      * simpl. destruct (split_lines b); [congruence | reflexivity].
      * reflexivity.
Qed.

Lemma strip_all_space s : forallb is_space s = true -> strip s = [].
Proof.
  intro H. unfold strip, lstrip. now rewrite drop_while_all.
Qed.

Lemma rstrip_app_all s w :
  forallb is_space w = true -> rstrip (s ++ w) = rstrip s.
Proof.
  intro H. unfold rstrip. rewrite rev_app_distr.
  rewrite drop_while_app_all; [reflexivity | now rewrite forallb_rev].
Qed.

Lemma drop_while_app p a b :
  drop_while p (a ++ b) =
  if forallb p a then drop_while p b else drop_while p a ++ b.
Proof.
  induction a as [|c a IH]; simpl; [reflexivity|].
  destruct (p c); simpl; [exact IH | reflexivity].
Qed.

Lemma strip_app_all_l w s :
  forallb is_space w = true -> strip (w ++ s) = strip s.
Proof. intro H. unfold strip, lstrip. now rewrite drop_while_app_all. Qed.

Lemma strip_app_all_r s w :
  forallb is_space w = true -> strip (s ++ w) = strip s.
Proof.
  intro H. unfold strip, lstrip. rewrite drop_while_app.
  destruct (forallb is_space s) eqn:F.
  - rewrite !drop_while_all by assumption. reflexivity.
  - now apply rstrip_app_all.
Qed.

(** What [rstrip] and [lstrip] remove. *)
Lemma rstrip_split s :
  exists w, s = rstrip s ++ w /\ forallb is_space w = true.
Proof.
  exists (rev (take_while is_space (rev s))). split.
  - unfold rstrip. rewrite <- rev_app_distr, <- drop_while_split.
    now rewrite rev_involutive.
  - rewrite forallb_rev. apply take_while_all.
Qed.

Lemma strip_split s :
  exists w1 w2, s = w1 ++ strip s ++ w2
                /\ forallb is_space w1 = true /\ forallb is_space w2 = true.
Proof.
  destruct (rstrip_split (lstrip s)) as (w2 & E & H2).
  exists (take_while is_space s), w2. repeat split.
  - unfold strip. rewrite <- E. apply drop_while_split.
  - apply take_while_all.
  - exact H2.
Qed.

Section PerLine.
Context {A : Type}.
Variable f : text -> list A.
Hypothesis f_strip : forall a b, strip a = strip b -> f a = f b.
Hypothesis f_nil : f [] = [].

Lemma flat_map_all_space ls :
  Forall (fun l => forallb is_space l = true) ls -> flat_map f ls = [].
Proof.
  induction 1 as [|l ls H _ IH]; [reflexivity|].
  simpl. rewrite IH, app_nil_r, <- f_nil.
  apply f_strip. now apply strip_all_space.
Qed.

Lemma flat_map_glue_r la lb :
  la <> [] ->
  Forall (fun l => forallb is_space l = true) lb ->
  flat_map f (glue la lb) = flat_map f la.
Proof.
  intros Hla Hlb. induction la as [|x la IH]; [congruence|].
  destruct la as [|l la].
  - destruct lb as [|y lb]; [reflexivity|].
    inversion Hlb; subst. simpl.
    rewrite (flat_map_all_space lb) by assumption.
    f_equal. apply f_strip. now apply strip_app_all_r.
  - rewrite glue_cons by discriminate.
    change (f x ++ flat_map f (glue (l :: la) lb) = f x ++ flat_map f (l :: la)).
    f_equal. now apply IH.
Qed.

Lemma flat_map_glue_l la lb :
  lb <> [] ->
  Forall (fun l => forallb is_space l = true) la ->
  flat_map f (glue la lb) = flat_map f lb.
Proof.
  intros Hlb Hla. induction la as [|x la IH]; [reflexivity|].
  inversion Hla; subst.
  destruct la as [|l la].
  - destruct lb as [|y lb]; [congruence|]. simpl.
    f_equal. apply f_strip. now apply strip_app_all_l.
  - rewrite glue_cons by discriminate.
    change (f x ++ flat_map f (glue (l :: la) lb) = flat_map f lb).
    rewrite IH by assumption.
    rewrite (f_strip x []), f_nil; [reflexivity|].
    now apply strip_all_space.
Qed.

(** A loop body that looks at each line stripped sees the same lines
    whether the text was stripped before it was split or not. *)
Lemma flat_map_split_strip s :
  flat_map f (split_lines (strip s)) = flat_map f (split_lines s).
Proof.
  destruct (strip_split s) as (w1 & w2 & E & H1 & H2).
  rewrite E at 2. rewrite !split_lines_app.
  rewrite flat_map_glue_l.
  - rewrite flat_map_glue_r; [reflexivity | apply split_lines_nonempty |].
    now apply split_lines_all_space.
  - rewrite <- split_lines_app. apply split_lines_nonempty.
  - now apply split_lines_all_space.
Qed.

End PerLine.

End LineFacts.

(** ** The transcript parser *)

Module ParserFacts.
Import Text Parser ParserSpec Pipeline TextFacts LineFacts.

Lemma take_while_id p s : forallb p s = true -> take_while p s = s.
Proof.
  induction s as [|c r IH]; simpl; [reflexivity|].
  intros [Hc Hr]%andb_prop. rewrite Hc. f_equal. auto.
Qed.

Lemma not_newline_forallb s :
  existsb (is_char newline) s = false -> forallb not_newline s = true.
Proof.
  induction s as [|c r IH]; simpl; [reflexivity|].
  intros [Hc Hr]%orb_false_elim. unfold not_newline at 1. rewrite Hc. auto.
Qed.

Lemma no_newline_app a b :
  existsb (is_char newline) (a ++ b) = false ->
  existsb (is_char newline) a = false /\ existsb (is_char newline) b = false.
Proof. rewrite existsb_app. apply orb_false_elim. Qed.

Lemma not_space_not_newline c : is_space c = false -> not_newline c = true.
Proof.
  intro H. unfold not_newline. destruct (is_char newline c) eqn:E; [|reflexivity].
  apply newline_is_space in E. congruence.
Qed.

(** On a line without newline that is not all white space, [\s*(.+)]
    captures the line from its first character that is not white space. *)
Lemma match_utterance_lstrip s :
  existsb (is_char newline) s = false -> forallb is_space s = false ->
  match_utterance s = Some (lstrip s).
Proof.
  unfold lstrip. induction s as [|c r IH]; [discriminate|].
  intros N F. cbn [match_utterance drop_while].
  destruct (is_space c) eqn:E.
  - simpl in N, F. rewrite E in F. apply orb_false_elim in N as [_ N].
    now rewrite IH.
  - rewrite (not_space_not_newline c E).
    now rewrite take_while_id by now apply not_newline_forallb.
Qed.

(** What a literal of the pattern matched. *)
Lemma match_literal_ci_split pat s m r :
  match_literal_ci pat s = Some (m, r) ->
  s = m ++ r /\ Forall2 (fun a c => is_char_ci a c = true) pat m.
Proof.
  revert s m r. induction pat as [|a pat IH]; intros s m r; simpl.
  - intros [= <- <-]. split; [reflexivity | constructor].
  - destruct s as [|c s]; [discriminate|].
    destruct (is_char_ci a c) eqn:E; [|discriminate].
    destruct (match_literal_ci pat s) as [[m' r']|] eqn:M; [|discriminate].
    intros [= <- <-]. destruct (IH _ _ _ M) as [-> F].
    split; [reflexivity | now constructor].
Qed.

(** Trailing white space does not change what a literal without white
    space matches. *)
Lemma match_literal_ci_app pat s w :
  solid pat -> forallb is_space w = true ->
  match_literal_ci pat (s ++ w) =
  match match_literal_ci pat s with
  | Some (m, r) => Some (m, r ++ w)
  | None => None
  end.
Proof.
  intros Hp Hw. revert s. induction pat as [|a pat IH]; intro s; simpl.
  - reflexivity.
  - destruct s as [|c s]; simpl.
    + destruct w as [|c w]; [reflexivity|].
      simpl in Hw. apply andb_prop in Hw as [Hc _].
      rewrite (Hp a c); [reflexivity | now left | exact Hc].
    + destruct (is_char_ci a c); [|reflexivity].
      rewrite IH by (intros ? ? ?; apply Hp; now right).
      destruct (match_literal_ci pat s) as [[m r]|]; reflexivity.
Qed.

Lemma speaker_solid : solid (lit "Speaker").
Proof.
  intros a c Ha Hc.
  assert (H : forallb (fun a => negb (is_char_ci a c)) (lit "Speaker") = true)
    by (revert Hc; by_cases_on c).
  rewrite forallb_forall in H. apply negb_true_iff, H, Ha.
Qed.

(** The characters matched by [Speaker] do not hold the digit [1]. *)
Lemma speaker_no_digit s m r :
  match_literal_ci (lit "Speaker") s = Some (m, r) ->
  existsb (is_char "1"%char) m = false.
Proof.
  intros [_ F]%match_literal_ci_split.
  assert (G : forall pat, Forall2 (fun a c => is_char_ci a c = true) pat m ->
                          forallb (fun a => negb (is_char_ci a "1"%char)) pat = true ->
                          existsb (is_char "1"%char) m = false).
  { clear. intros pat F. induction F as [|a c pat m H F IH]; [reflexivity|].
    simpl. intros [Ha Hp]%andb_prop. rewrite (IH Hp), orb_false_r.
    destruct (is_char "1"%char c) eqn:E; [|reflexivity].
    apply is_char_eq in E. subst c. rewrite H in Ha. discriminate. }
  apply (G _ F). reflexivity.
Qed.

Lemma spaces_no_digit s :
  forallb is_space s = true -> existsb (is_char "1"%char) s = false.
Proof.
  induction s as [|c r IH]; simpl; [reflexivity|].
  intros [Hc Hr]%andb_prop. rewrite (IH Hr), orb_false_r.
  revert Hc. by_cases_on c.
Qed.

Lemma colon_not_space c : is_space c = true -> is_char ":"%char c = false.
Proof. by_cases_on c. Qed.

Lemma strip_nil_iff s : strip s = [] <-> forallb is_space s = true.
Proof.
  unfold strip, lstrip. rewrite rstrip_nil_iff.
  rewrite (drop_while_split is_space s) at 2.
  rewrite forallb_app, take_while_all. reflexivity.
Qed.

Lemma strip_lstrip s : strip (lstrip s) = strip s.
Proof. unfold strip, lstrip. now rewrite drop_while_idem. Qed.

(** A suffix of a text without trailing white space has none either. *)
Lemma rstrip_fixed_suffix a b : rstrip (a ++ b) = a ++ b -> b <> [] -> rstrip b = b.
Proof.
  intros H Hb. destruct (rstrip_split b) as (w & E & Hw).
  destruct w as [|c w]; [now rewrite app_nil_r in E|].
  exfalso. rewrite E, app_assoc, rstrip_app_all in H by exact Hw.
  destruct (rstrip_split (a ++ rstrip b)) as (w' & E' & _).
  rewrite H in E'. rewrite <- app_assoc in E'.
  apply (f_equal (@length _)) in E'. rewrite !length_app in E'. simpl in E'. lia.
Qed.


Lemma drop_while_not_all p s :
  forallb p s = false -> exists d r, drop_while p s = d :: r /\ p d = false.
Proof.
  induction s as [|c s IH]; simpl; [discriminate|].
  destruct (p c) eqn:E; simpl; [exact IH | eauto].
Qed.

Lemma match_literal_ci_nil pat : pat <> [] -> match_literal_ci pat [] = None.
Proof. destruct pat; [congruence | reflexivity]. Qed.

(** The body of the loop, on a line without newline, yields the turn of
    the line. *)
Lemma parse_line_turn_of_line line :
  existsb (is_char newline) line = false ->
  parse_line line = match turn_of_line line with
                    | Some t => [t]
                    | None => []
                    end.
Proof.
  intro N. unfold parse_line, turn_of_line, labelled.
  destruct (rstrip_split (lstrip line)) as (w & E & Hw).
  fold (strip line) in E. rewrite E.
  assert (NX : existsb (is_char newline) (strip line) = false).
  { rewrite (drop_while_split is_space line) in N.
    apply no_newline_app in N as [_ N]. fold (lstrip line) in N.
    rewrite E in N. now apply no_newline_app in N. }
  assert (RX : rstrip (strip line) = strip line) by apply rstrip_idem.
  generalize dependent (strip line). intros X _ NX RX. clear line N.
  rewrite (match_literal_ci_app _ _ _ speaker_solid Hw).
  unfold match_line, match_speaker.
  destruct (match_literal_ci (lit "Speaker") X) as [[m r1]|] eqn:M.
  2: { destruct X; reflexivity. }
  destruct X as [|x0 X0]; [discriminate M|].
  remember (x0 :: X0) as X eqn:EX. clear EX x0 X0.
  pose proof (speaker_no_digit _ _ _ M) as Hm.
  apply match_literal_ci_split in M as [-> _].
  rewrite drop_while_app.
  destruct (forallb is_space r1) eqn:F.
  { rewrite !drop_while_all by assumption. reflexivity. }
  destruct (drop_while_not_all _ _ F) as (d & r2 & D & Hd).
  pose proof (drop_while_split is_space r1) as S1. rewrite D in S1.
  rewrite D. cbn [app].
  destruct r2 as [|c R].
  { destruct (is_12 d); [|destruct w; reflexivity].
    destruct w as [|c w]; [reflexivity|]. cbn [app].
    simpl in Hw. apply andb_prop in Hw as [Hc _].
    rewrite (colon_not_space c Hc). reflexivity. }
  cbn [app]. destruct (is_12 d) eqn:D12; [|reflexivity].
  destruct (is_char ":"%char c) eqn:C; [|reflexivity]. cbn [andb].
  rewrite (strip_app_all_r R w Hw).
  destruct R as [|e R'].
  { reflexivity. }
  remember (e :: R') as R eqn:ER.
  assert (HR : rstrip R = R).
  { rewrite S1, app_assoc in RX.
    change (d :: c :: R) with ([d; c] ++ R) in RX. rewrite app_assoc in RX.
    apply (rstrip_fixed_suffix _ _ RX). subst R. discriminate. }
  assert (NR : existsb (is_char newline) R = false).
  { rewrite S1 in NX. apply no_newline_app in NX as [_ NX].
    apply no_newline_app in NX as [_ NX].
    change (d :: c :: R) with ([d; c] ++ R) in NX.
    now apply no_newline_app in NX. }
  assert (FR : forallb is_space R = false).
  { destruct (forallb is_space R) eqn:FR; [|reflexivity].
    apply rstrip_nil_iff in FR. rewrite HR in FR. subst R. discriminate. }
  rewrite (match_utterance_lstrip R NR FR), strip_lstrip.
  destruct (strip R) as [|u0 u] eqn:SR.
  { apply strip_nil_iff in SR. congruence. }
  do 2 f_equal. unfold speaker_of.
  rewrite !existsb_app, Hm, (spaces_no_digit _ (take_while_all _ _)).
  simpl. now rewrite orb_false_r.
Qed.

Lemma parse_line_strip a b : strip a = strip b -> parse_line a = parse_line b.
Proof. unfold parse_line. now intros ->. Qed.

(** The parser yields the turns of the lines of the script, in order. *)
Lemma parse_conversation_turns_of script :
  parse_conversation script = turns_of turn_of_line script.
Proof.
  unfold parse_conversation, turns_of.
  rewrite (flat_map_split_strip parse_line parse_line_strip eq_refl).
  pose proof (split_lines_no_newline script) as H.
  induction H as [|l ls Hl _ IH]; [reflexivity|].
  simpl. now rewrite IH, (parse_line_turn_of_line l Hl).
Qed.

(** C2, as the code has it. The parser returns, in order, the pairs
    (speaker_id, utterance) of the lines that start, after optional white
    space, with [Speaker] in any case, optional white space, [1] or [2],
    a colon, and then at least one more character that is not white
    space; the utterance is what follows the colon, trimmed; every other
    line is dropped. The example script yields
    [("speaker1","Hello there"); ("speaker2","Hi!")]. *)
Theorem parse_conversation_spec :
  (forall script : text,
      parse_conversation script = turns_of turn_of_line script)
  /\ parse_conversation example_script
     = [("speaker1"%string, lit "Hello there"); ("speaker2"%string, lit "Hi!")].
Proof.
  split; [exact parse_conversation_turns_of | reflexivity].
Qed.

(** C2, as stated, fails: a line with only white space after the colon
    has "at least one more character", and yields no turn. *)
Lemma parse_conversation_blank_utterance :
  turns_of turn_of_line_any blank_utterance_script
  = [("speaker1"%string, []); ("speaker2"%string, lit "Hi!")]
  /\ parse_conversation blank_utterance_script
     <> turns_of turn_of_line_any blank_utterance_script.
Proof. split; [reflexivity | vm_compute; discriminate]. Qed.

Lemma lstrip_strip s : lstrip (strip s) = strip s.
Proof. apply lstrip_rstrip_fixed, drop_while_idem. Qed.

Lemma rstrip_strip s : rstrip (strip s) = strip s.
Proof. apply rstrip_idem. Qed.

Lemma strip_trimmed s : trimmed (strip s).
Proof.
  split.
  - intros c r E. pose proof (lstrip_strip s) as H.
    rewrite E in H. eapply drop_while_head, H.
  - intros r c E. pose proof (rstrip_strip s) as H. rewrite E in H.
    destruct (is_space c) eqn:Hc; [exfalso | reflexivity].
    rewrite rstrip_app_all in H by (simpl; now rewrite Hc).
    destruct (rstrip_split r) as (w & Er & _).
    rewrite H in Er. apply (f_equal (@length _)) in Er.
    rewrite !length_app in Er. simpl in Er. lia.
Qed.

Lemma VOICE_MAP_dom : dom VOICE_MAP = ({[ "speaker1"%string; "speaker2"%string ]} : gset string).
Proof. unfold VOICE_MAP. rewrite dom_insert_L, dom_singleton_L. reflexivity. Qed.

(** The speech synthesizer raises [KeyError] only when the speaker has no
    voice. *)
Lemma tts_turn_elevenlabs_KeyError out txt id w k :
  fst (tts_turn_elevenlabs out txt id w) = Raise (KeyError k) ->
  VOICE_MAP !! id = None.
Proof.
  unfold tts_turn_elevenlabs.
  destruct (key_of (ELEVENLABS_API_KEY out)); [|discriminate].
  destruct (VOICE_MAP !! id); [|reflexivity].
  unfold bind, requests_post, outcome.
  destruct (tts_service out _); [discriminate|]. cbn [fst].
  destruct (negb _); [discriminate|].
  unfold of_result, outcome, ret, raise. cbn.
  destruct (decode_mp3 out _); discriminate.
Qed.

(** C10. Every turn of the parser has speaker_id ["speaker1"] or
    ["speaker2"] and an utterance that is not empty and has no white space
    at either end; the voice map is defined on exactly these two ids, so
    that the voice lookup of the speech synthesizer succeeds and raises
    no [KeyError] on a turn of the parser. *)
Theorem parse_conversation_turns_have_voices (script : text) :
  Forall (fun t : turn =>
            let (speaker_id, utterance) := t in
            (speaker_id = "speaker1"%string \/ speaker_id = "speaker2"%string)
            /\ utterance <> [] /\ trimmed utterance
            /\ is_Some (VOICE_MAP !! speaker_id)
            /\ forall out w k,
                 fst (tts_turn_elevenlabs out utterance speaker_id w)
                 <> Raise (KeyError k))
         (parse_conversation script)
  /\ dom VOICE_MAP = ({[ "speaker1"%string; "speaker2"%string ]} : gset string).
Proof.
  split; [|exact VOICE_MAP_dom].
  rewrite parse_conversation_turns_of. unfold turns_of.
  induction (split_lines script) as [|l ls IH]; [constructor|].
  simpl. apply Forall_app. split; [|exact IH].
  unfold turn_of_line. destruct (labelled l) as [[d rest]|]; [|constructor].
  destruct (strip rest) as [|c u] eqn:E; constructor; [|constructor].
  assert (V : is_Some (VOICE_MAP !! speaker_of d)).
  { unfold speaker_of. destruct (is_char "1"%char d); vm_compute; eauto. }
  repeat split.
  - unfold speaker_of. destruct (is_char "1"%char d); auto.
  - discriminate.
  - rewrite <- E. apply strip_trimmed.
  - rewrite <- E. apply strip_trimmed.
  - exact V.
  - intros out w k H. apply tts_turn_elevenlabs_KeyError in H.
    rewrite H in V. now destruct V.
Qed.

End ParserFacts.

(** ** The content extractor *)

Module ExtractorFacts.
Import Text Dom Extractor ExtractorSpec Documents.

(** Equal nodes have the same name. *)
Lemma node_eqb_name a b : node_eqb a b = true -> tag_name a = tag_name b.
Proof.
  destruct a as [s|n1 at1 cs1], b as [t|n2 at2 cs2]; simpl; try discriminate.
  - reflexivity.
  - intros [[H _]%andb_prop _]%andb_prop.
    apply bool_decide_eq_true in H. now subst.
Qed.

Lemma node_eqb_has_name names a b :
  node_eqb a b = true -> has_name names a = has_name names b.
Proof. intro H. unfold has_name. now rewrite (node_eqb_name a b H). Qed.

Lemma find_string_name name s doc n :
  find_string name s doc = Some n -> tag_name n = Some name.
Proof.
  unfold find_string, find_all. intros [H _]%find_some.
  apply filter_In in H as [_ H]. unfold has_name in H.
  destruct (tag_name n) as [m|]; [|discriminate].
  simpl in H. rewrite orb_false_r in H. apply String.eqb_eq in H. now subst.
Qed.

(** The node located for a heading is a heading tag, not a paragraph. *)
Lemma locate_heading doc h n :
  locate doc h = Some n -> is_heading_tag n = true /\ is_paragraph n = false.
Proof.
  destruct h as [level title]. unfold locate.
  destruct (String.eqb level "H1"); intros H%find_string_name;
    unfold is_heading_tag, is_paragraph, has_name; rewrite H; split; reflexivity.
Qed.

Lemma paragraph_texts_cons t tags :
  paragraph_texts (t :: tags) =
  if is_paragraph t then
    if (50 <? length (get_text t))%nat
    then get_text t :: paragraph_texts tags
    else paragraph_texts tags
  else paragraph_texts tags.
Proof.
  unfold paragraph_texts. simpl. destruct (is_paragraph t); [|reflexivity].
  simpl. destruct (50 <? length (get_text t))%nat; reflexivity.
Qed.

Section Scan.
Variables start_node end_node : node.
Hypothesis start_heading : is_heading_tag start_node = true.

Lemma start_not_paragraph t : node_eqb t start_node = true -> is_paragraph t = false.
Proof.
  intro H. unfold is_paragraph, is_heading_tag, has_name in *.
  rewrite (node_eqb_name _ _ H).
  destruct (tag_name start_node) as [m|]; [|reflexivity].
  simpl in *. rewrite !orb_false_r in *.
  destruct (String.eqb_spec m "p"); [subst; discriminate | reflexivity].
Qed.

(** Once started, the loop collects the paragraphs up to the first
    heading that is neither boundary node. *)
Lemma collect_started tags :
  collect start_node end_node true tags
  = paragraph_texts (before_stop (stops start_node end_node) tags).
Proof.
  induction tags as [|t rest IH]; [reflexivity|].
  cbn [collect before_stop]. unfold stops at 1.
  destruct (node_eqb t start_node) eqn:S.
  - rewrite andb_false_r, paragraph_texts_cons, (start_not_paragraph t S).
    exact IH.
  - rewrite andb_true_r. fold (is_heading_tag t).
    destruct (is_heading_tag t && negb (node_eqb t end_node)); [reflexivity|].
    rewrite paragraph_texts_cons. fold (is_paragraph t).
    destruct (is_paragraph t); [|exact IH].
    destruct (50 <? length (get_text t))%nat; [f_equal|]; exact IH.
Qed.

(** Before that, it looks for the first heading's node. *)
Lemma collect_not_started tags :
  collect start_node end_node false tags
  = collect start_node end_node true (after_first start_node tags).
Proof.
  induction tags as [|t rest IH]; [reflexivity|].
  cbn [collect after_first].
  destruct (node_eqb t start_node); [reflexivity | exact IH].
Qed.

End Scan.

Lemma boundary_nodes_some doc headings s e :
  boundary_nodes doc headings = Some (s, e) ->
  headings <> [] /\ is_heading_tag s = true
  /\ extract_combined_content doc headings
     = join_lines (collect s e false (find_all ["h1"; "h2"; "p"]%string doc)).
Proof.
  unfold boundary_nodes, extract_combined_content.
  destruct headings as [|first rest]; [discriminate|].
  destruct (locate doc first) as [s'|] eqn:L1; [|discriminate].
  destruct (locate doc (List.last (first :: rest) first)) as [e'|]; [|discriminate].
  intros [= <- <-]. repeat split; [discriminate|].
  now apply locate_heading in L1.
Qed.

(** C1, as the code has it. When the heading sequence is not empty and
    both boundary nodes are found, the extracted content is the
    newline-joined texts, in document order, of the paragraphs with more
    than 50 characters of stripped text that lie strictly after the first
    heading's node and before the first heading-level node that is
    neither the last heading's node nor the first heading's node again. *)
Theorem extract_combined_content_window
    (doc : soup) (headings : list heading) (start_node end_node : node) :
  boundary_nodes doc headings = Some (start_node, end_node) ->
  extract_combined_content doc headings
  = content_of (stops start_node end_node) start_node doc.
Proof.
  intros (_ & Hs & ->)%boundary_nodes_some.
  unfold content_of, window.
  now rewrite collect_not_started, collect_started.
Qed.

Lemma extract_combined_content_window_witness :
  boundary_nodes article_doc (extract_headings article_doc)
  = Some (first_heading "Fox", element "h2" "Habitat")
  /\ extract_combined_content article_doc (extract_headings article_doc)
     = content_of (stops (first_heading "Fox") (element "h2" "Habitat"))
         (first_heading "Fox") article_doc.
Proof.
  split; [vm_compute; reflexivity|].
  apply extract_combined_content_window. vm_compute. reflexivity.
Defined.

(** C1, as stated, fails when a copy of the first heading's node occurs
    again before the last heading: the scan passes it and goes on. *)
Lemma extract_combined_content_repeated_title :
  boundary_nodes repeated_title_doc (extract_headings repeated_title_doc)
  = Some (first_heading "Fox", element "h2" "History")
  /\ extract_combined_content repeated_title_doc (extract_headings repeated_title_doc)
     <> content_of (stops_as_stated (element "h2" "History"))
          (first_heading "Fox") repeated_title_doc.
Proof. split; [vm_compute; reflexivity | vm_compute; discriminate]. Qed.


(** *** Heading selection *)

(** The loop appends the eligible texts, in order, until three headings
    are selected. *)
Lemma h2_loop_spec h2_tags : forall headings,
  (length headings <= 3)%nat ->
  h2_loop headings h2_tags
  = headings ++ map (pair "H2"%string)
                  (firstn (3 - length headings)
                     (List.filter eligible (map get_text h2_tags))).
Proof.
  induction h2_tags as [|h2 rest IH]; intros headings Hlen.
  - simpl. rewrite firstn_nil. simpl. now rewrite app_nil_r.
  - cbn [h2_loop map List.filter]. fold (eligible (get_text h2)).
    destruct (3 <=? length headings)%nat eqn:C.
    + apply Nat.leb_le in C. replace (3 - length headings)%nat with 0%nat by lia.
      simpl. now rewrite app_nil_r.
    + apply Nat.leb_gt in C.
      destruct (eligible (get_text h2)); [|now apply IH].
      rewrite IH by (rewrite length_app; simpl; lia).
      rewrite length_app. simpl length.
      replace (3 - length headings)%nat with (S (3 - (length headings + 1)))%nat by lia.
      simpl. now rewrite <- app_assoc.
Qed.

(** C6. On a document with a title element, the selected headings are
    the title, as an ["H1"], followed by the first two [h2] headings, in
    document order, whose text is neither empty nor ["Contents"], as
    ["H2"]; they are at most three. *)
Theorem extract_headings_titled (doc : soup) (h1 : node) :
  title_element doc = Some h1 ->
  extract_headings doc
  = ("H1"%string, get_text h1)
    :: map (pair "H2"%string)
         (firstn 2 (List.filter eligible (map get_text (find_all ["h2"%string] doc))))
  /\ (length (extract_headings doc) <= 3)%nat.
Proof.
  unfold title_element, extract_headings. intros ->.
  rewrite h2_loop_spec by (simpl; lia).
  split; [reflexivity|].
  simpl. rewrite length_map, length_firstn. lia.
Qed.

Lemma extract_headings_titled_witness :
  title_element article_doc = Some (first_heading "Fox")
  /\ extract_headings article_doc
     = [("H1"%string, lit "Fox"); ("H2"%string, lit "History");
        ("H2"%string, lit "Habitat")].
Proof.
  split; [vm_compute; reflexivity|].
  destruct (extract_headings_titled article_doc (first_heading "Fox")) as [E _].
  - vm_compute. reflexivity.
  - rewrite E. vm_compute. reflexivity.
Defined.

(** *** Nothing to extract *)

(** C5, as the code has it. When the heading sequence is empty or one of
    the two boundary nodes is not found, the extracted content is the
    empty string; and a document that has neither a title element nor an
    [h2] heading with a text other than ["Contents"] has no heading, and
    so no content. *)
Theorem extract_combined_content_nothing :
  (forall (doc : soup) (headings : list heading),
      boundary_nodes doc headings = None ->
      extract_combined_content doc headings = [])
  /\ (forall doc : soup,
        title_element doc = None ->
        List.filter eligible (map get_text (find_all ["h2"%string] doc)) = [] ->
        extract_headings doc = []
        /\ extract_combined_content doc (extract_headings doc) = []).
Proof.
  split.
  - intros doc headings. unfold boundary_nodes, extract_combined_content.
    destruct headings as [|first rest]; [reflexivity|].
    destruct (locate doc first); [|reflexivity].
    destruct (locate doc (List.last (first :: rest) first)); [discriminate | reflexivity].
  - intros doc Ht Hh.
    assert (E : extract_headings doc = []).
    { unfold title_element in Ht. unfold extract_headings.
      rewrite Ht, h2_loop_spec by (simpl; lia). now rewrite Hh. }
    now rewrite E.
Qed.

Lemma extract_combined_content_nothing_witness :
  boundary_nodes article_doc [("H2"%string, lit "Diet")] = None
  /\ extract_combined_content article_doc [("H2"%string, lit "Diet")] = []
  /\ title_element plain_doc = None
  /\ extract_combined_content plain_doc (extract_headings plain_doc) = [].
Proof.
  assert (B : boundary_nodes article_doc [("H2"%string, lit "Diet")] = None)
    by (vm_compute; reflexivity).
  assert (T : title_element plain_doc = None) by (vm_compute; reflexivity).
  refine (conj B (conj _ (conj T _))).
  - exact (proj1 extract_combined_content_nothing _ _ B).
  - apply (proj2 extract_combined_content_nothing plain_doc T).
    vm_compute. reflexivity.
Defined.

(** C5, as stated, fails: a document without title element whose first
    eligible [h2] heading is followed by a paragraph yields that
    paragraph. *)
Lemma extract_combined_content_untitled :
  title_element untitled_doc = None
  /\ find_all ["h1"%string] untitled_doc = []
  /\ extract_combined_content untitled_doc (extract_headings untitled_doc)
     = lit fox
  /\ extract_combined_content untitled_doc (extract_headings untitled_doc)
     <> [].
Proof. repeat split; vm_compute; (reflexivity || discriminate). Qed.

End ExtractorFacts.

(** ** The remote calls *)

Module PipelineFacts.
Import Text Pipeline PipelineSpec.

(** C8. When the credential of a service is absent (unset or empty),
    script generation, and likewise speech synthesis, raises the
    configuration error at once: the world is as before the call, no
    client has been built and no request sent. *)
Theorem missing_credential_raises_first (out : outside) (w : world) :
  (key_of (OPENAI_API_KEY out) = None ->
   forall content prefix,
     generate_script_from_content out content prefix w
     = (Raise (ConfigurationError "OPENAI_API_KEY"), w))
  /\ (key_of (ELEVENLABS_API_KEY out) = None ->
      forall txt speaker_id,
        tts_turn_elevenlabs out txt speaker_id w
        = (Raise (ConfigurationError "ELEVENLABS_API_KEY"), w)).
Proof.
  split; intros H ? ?.
  - unfold generate_script_from_content. now rewrite H.
  - unfold tts_turn_elevenlabs. now rewrite H.
Qed.

Lemma missing_credential_raises_first_witness :
  generate_script_from_content no_credentials (lit "Foxes.") None fresh
  = (Raise (Exception "OPENAI_API_KEY not set"), fresh)
  /\ tts_turn_elevenlabs no_credentials (lit "Hello") "speaker1" fresh
     = (Raise (Exception "ELEVENLABS_API_KEY not set"), fresh).
Proof.
  split.
  - apply (proj1 (missing_credential_raises_first no_credentials fresh)).
    reflexivity.
  - apply (proj2 (missing_credential_raises_first no_credentials fresh)).
    reflexivity.
Defined.

(** C9, as the code has it. With a credential, the script generator
    builds one client and submits one completion request, at temperature
    0.6, whose single user message is the prefix, a blank line, the label
    [Content:] and the content, or the label and the content when there is
    no prefix; it returns the answer trimmed, and a failure of the call is
    propagated. *)
Theorem generate_script_from_content_request
    (out : outside) (content : text) (prefix : option text) (key : text)
    (w : world) :
  key_of (OPENAI_API_KEY out) = Some key ->
  generate_script_from_content out content prefix w
  = (match chat_service out (completion_request key (prompt content prefix)) with
     | inr answer => Ok (strip answer)
     | inl what => Raise (Propagated what)
     end,
     log (ChatCompletion (completion_request key (prompt content prefix)))
       (log (OpenAIClient key) w)).
Proof.
  intro H. unfold generate_script_from_content. rewrite H.
  unfold bind, OpenAI, chat_completions_create, ret, outcome.
  replace (match prefix with
           | Some (c :: r) =>
               (c :: r) ++ newline :: newline :: lit "Content:" ++ newline :: content
           | _ => lit "Content:" ++ newline :: content
           end) with (prompt content prefix)
    by (destruct prefix as [[|c r]|]; reflexivity).
  fold (completion_request key (prompt content prefix)).
  destruct (chat_service out _); reflexivity.
Qed.

Lemma generate_script_from_content_request_witness :
  generate_script_from_content studio (lit "Foxes.") (Some (lit "Be brief.")) fresh
  = (Ok (lit "Speaker1: Hello there" ++ newline :: lit "Speaker2: Hi!"),
     {| events :=
          [OpenAIClient (lit "sk-test");
           ChatCompletion
             (completion_request (lit "sk-test")
                (lit "Be brief." ++ newline :: newline
                 :: lit "Content:" ++ newline :: lit "Foxes."))];
        draws := 0 |}).
Proof.
  rewrite (generate_script_from_content_request studio _ _ (lit "sk-test"))
    by reflexivity.
  reflexivity.
Defined.

(** C9, as stated, fails: the request never carries the content alone,
    nor the prefix directly followed by the content. *)
Lemma generate_script_from_content_labels_content :
  ~ In (ChatCompletion
          (completion_request (lit "sk-test") (prompt_as_stated (lit "Foxes.") None)))
       (events (snd (generate_script_from_content studio (lit "Foxes.") None fresh)))
  /\ ~ In (ChatCompletion
             (completion_request (lit "sk-test")
                (prompt_as_stated (lit "Foxes.") (Some (lit "Be brief.")))))
          (events (snd (generate_script_from_content studio (lit "Foxes.")
                          (Some (lit "Be brief.")) fresh))).
Proof.
  split; vm_compute; intros [H|[H|[]]]; discriminate H.
Qed.


(** *** Stitching *)

(** Speech synthesis draws no random number, and what it returns does not
    depend on the world it runs in. *)
Lemma tts_turn_elevenlabs_draws out txt id w :
  draws (snd (tts_turn_elevenlabs out txt id w)) = draws w.
Proof.
  unfold tts_turn_elevenlabs.
  destruct (key_of (ELEVENLABS_API_KEY out)); [|reflexivity].
  destruct (VOICE_MAP !! id); [|reflexivity].
  unfold bind, requests_post, outcome.
  destruct (tts_service out _); [reflexivity|].
  destruct (negb _); [reflexivity|].
  unfold of_result, outcome. destruct (decode_mp3 out _); reflexivity.
Qed.

Lemma pause_choice_in k : In (nth (k mod 5) pause_choices 0%nat) pause_choices.
Proof.
  apply nth_In. change (length pause_choices) with 5%nat.
  apply Nat.mod_upper_bound. discriminate.
Qed.

Lemma pauses_drawn_in out d n :
  Forall (fun p => In p pause_choices) (pauses_drawn out d n).
Proof.
  unfold pauses_drawn. apply Forall_map, Forall_forall.
  intros k _. apply pause_choice_in.
Qed.

Lemma pause_silent p : In p pause_choices -> silent p = [Silence p].
Proof.
  intro H. destruct p; [|reflexivity].
  exfalso. simpl in H. intuition discriminate.
Qed.

Lemma pauses_drawn_length out d n : length (pauses_drawn out d n) = n.
Proof. unfold pauses_drawn. now rewrite length_map, length_seq. Qed.

Section Stitch.
Variable out : outside.

Lemma stitch_loop_spec rest : forall segments n i final_audio w,
  Forall2 (synthesized out) rest segments ->
  (i + length rest = n)%nat ->
  exists w',
    stitch_loop out n i rest final_audio w
    = (Ok (final_audio
           ++ interleave segments
                (pauses_drawn out (draws w) (length rest - 1))), w')
    /\ draws w' = (draws w + (length rest - 1))%nat.
Proof.
  induction rest as [|[speaker txt] rest IH];
    intros segments n i final_audio w F Hn.
  - inversion F; subst. exists w. simpl. rewrite app_nil_r.
    split; [reflexivity | lia].
  - inversion F as [|t segment rest' segments' Hs F']; subst.
    cbn [stitch_loop]. unfold bind at 1.
    pose proof (Hs w) as Hw.
    pose proof (tts_turn_elevenlabs_draws out txt speaker w) as Hd.
    cbn [fst snd] in Hw.
    destruct (tts_turn_elevenlabs out txt speaker w) as [r w1].
    cbn [fst snd] in Hw, Hd. subst r.
    destruct rest as [|t2 rest].
    + inversion F'; subst.
      replace (Z.of_nat i <? Z.of_nat (i + length [(speaker, txt)]) - 1)%Z
        with false by (symmetry; apply Z.ltb_ge; simpl; lia).
      exists w1. simpl. split; [reflexivity | lia].
    + replace (Z.of_nat i <? Z.of_nat (i + length ((speaker, txt) :: t2 :: rest)) - 1)%Z
        with true by (symmetry; apply Z.ltb_lt; simpl; lia).
      unfold bind, natural_pause_ms, random_choice.
      change (length pause_choices) with 5%nat.
      set (w2 := {| events := events w1; draws := S (draws w1) |}).
      destruct (IH segments' (i + length ((speaker, txt) :: t2 :: rest))%nat (S i)
                  ((final_audio ++ segment)
                   ++ silent (nth (draw out (draws w1) mod 5) pause_choices 0%nat))
                  w2 F') as (w' & E1 & E2); [simpl; lia|].
      exists w'. split.
      * rewrite E1. do 2 f_equal. subst w2. cbn [draws]. rewrite Hd.
        inversion F'; subst.
        cbn [length Nat.sub]. rewrite !Nat.sub_0_r.
        unfold pauses_drawn at 2. cbn [seq map].
        fold (pauses_drawn out (S (draws w)) (length rest)).
        cbn [interleave]. now rewrite <- !app_assoc.
      * rewrite E2. subst w2. cbn [draws length]. lia.
Qed.

End Stitch.

Lemma interleave_cons s s2 rest p ps :
  interleave (s :: s2 :: rest) (p :: ps)
  = s ++ silent p ++ interleave (s2 :: rest) ps.
Proof. reflexivity. Qed.

Lemma interleave_segments segments : forall pauses,
  Forall (fun s => exists mp3 clip, s = [Speech mp3 clip]) segments ->
  Forall (fun p => In p pause_choices) pauses ->
  length pauses = (length segments - 1)%nat ->
  speech_segments (interleave segments pauses) = concat segments
  /\ pause_segments (interleave segments pauses) = map Silence pauses.
Proof.
  unfold speech_segments, pause_segments.
  induction segments as [|s rest IH]; intros pauses Hs Hp Hl.
  - destruct pauses; [repeat split | discriminate].
  - inversion Hs as [|? ? (mp3 & clip & ->) Hs']; subst.
    destruct rest as [|s2 rest].
    + destruct pauses; [|discriminate]. simpl. repeat split.
    + destruct pauses as [|p ps]; [discriminate|].
      inversion Hp as [|? ? Hp1 Hp']; subst.
      destruct (IH ps Hs' Hp') as (E1 & E2); [simpl in *; lia|].
      rewrite interleave_cons, (pause_silent p Hp1).
      cbn [app List.filter is_speech negb map concat].
      unfold audio in *. rewrite E1, E2. repeat split.
Qed.

(** A synthesized segment is one decoded clip. *)
Lemma synthesized_speech out t segment :
  synthesized out t segment -> exists mp3 clip, segment = [Speech mp3 clip].
Proof.
  intro H. specialize (H {| events := []; draws := 0 |}).
  unfold tts_turn_elevenlabs in H.
  destruct (key_of (ELEVENLABS_API_KEY out)); [|discriminate].
  destruct (VOICE_MAP !! fst t); [|discriminate].
  unfold bind, requests_post, outcome in H.
  destruct (tts_service out _) as [|resp]; [discriminate|]. cbn [fst] in H.
  destruct (negb _); [discriminate|].
  unfold of_result, outcome, ret, raise in H.
  destruct (decode_mp3 out _); [discriminate|].
  cbn in H. injection H as <-. eauto.
Qed.


Lemma concat_speech_length (segments : list audio) :
  Forall (fun s => exists mp3 clip, s = [Speech mp3 clip]) segments ->
  length (concat segments) = length segments.
Proof.
  induction 1 as [|s rest (mp3 & clip & ->) _ IH]; [reflexivity|].
  simpl. now rewrite IH.
Qed.

(** The silent segment the track starts from has no frames. *)
Lemma duration_nil out : duration out [] = 0%nat.
Proof. reflexivity. Qed.

(** C7, as the code has it. When every turn is synthesized, the stitched
    track is the segments of the turns, in turn order, with one pause
    between consecutive segments and none before the first or after the
    last: N speech segments and max(N-1, 0) pauses, each pause one of
    200, 250, 300, 350 and 400 ms. Without turns the track is empty, of
    duration zero, and the world is as before: no request was sent. *)
Theorem stitch_conversation_elevenlabs_track (out : outside) :
  (forall (turns : list (string * text)) (segments : list audio) (w : world),
      Forall2 (synthesized out) turns segments ->
      exists (pauses : list nat) (w' : world),
        stitch_conversation_elevenlabs out turns w
        = (Ok (interleave segments pauses), w')
        /\ speech_segments (interleave segments pauses) = concat segments
        /\ length (speech_segments (interleave segments pauses)) = length turns
        /\ pause_segments (interleave segments pauses) = map Silence pauses
        /\ length (pause_segments (interleave segments pauses))
           = Nat.max (length turns - 1) 0
        /\ Forall (fun p => In p [200; 250; 300; 350; 400]%nat) pauses)
  /\ (forall w : world,
        stitch_conversation_elevenlabs out [] w = (Ok [], w)
        /\ duration out [] = 0%nat).
Proof.
  split; [|intro w; split; [reflexivity | apply duration_nil]].
  intros turns segments w F.
  unfold stitch_conversation_elevenlabs.
  destruct (stitch_loop_spec out turns segments (length turns) 0 (silent 0) w F eq_refl)
    as (w' & E & _).
  set (pauses := pauses_drawn out (draws w) (length turns - 1)) in *.
  assert (Hs : Forall (fun s => exists mp3 clip, s = [Speech mp3 clip]) segments).
  { clear E. induction F as [|t s ts ss H _ IH]; constructor; [|exact IH].
    eapply synthesized_speech, H. }
  assert (Hp : Forall (fun p => In p pause_choices) pauses)
    by apply pauses_drawn_in.
  assert (Hl : length segments = length turns)
    by (symmetry; eapply Forall2_length, F).
  assert (Hn : length pauses = (length segments - 1)%nat).
  { subst pauses. rewrite pauses_drawn_length. lia. }
  destruct (interleave_segments segments pauses Hs Hp Hn) as (E1 & E2).
  exists pauses, w'. repeat split; try assumption.
  - rewrite E1, concat_speech_length; assumption.
  - rewrite E2, length_map, Hn. lia.
Qed.

Lemma stitch_conversation_elevenlabs_track_witness :
  Forall2 (synthesized studio) two_turns
    [[Speech (lit "Hello there") (recorded (lit "Hello there"))];
     [Speech (lit "Hi!") (recorded (lit "Hi!"))]]
  /\ exists pauses w',
       stitch_conversation_elevenlabs studio two_turns fresh
       = (Ok (interleave [[Speech (lit "Hello there") (recorded (lit "Hello there"))];
                          [Speech (lit "Hi!") (recorded (lit "Hi!"))]] pauses), w').
Proof.
  assert (F : Forall2 (synthesized studio) two_turns
                [[Speech (lit "Hello there") (recorded (lit "Hello there"))];
                 [Speech (lit "Hi!") (recorded (lit "Hi!"))]]).
  { repeat constructor; intro w; reflexivity. }
  split; [exact F|].
  destruct (proj1 (stitch_conversation_elevenlabs_track studio) _ _ fresh F)
    as (pauses & w' & E & _).
  exists pauses, w'. exact E.
Defined.

(** C7, as stated, fails: the duration of a track is not the sum of the
    durations of its segments and pauses. Two clips of 1152 frames at
    11025 Hz last 104 ms each ([round(104.49)]); with the pause of 200 ms
    (2205 frames) between them the track has 4509 frames and lasts 409 ms
    ([round(408.98)]), not 104 + 104 + 200 = 408 ms. *)
Lemma stitch_conversation_elevenlabs_duration_rounded :
  let segments := [[Speech (lit "Hello there") narrowband_clip];
                   [Speech (lit "Hi!") narrowband_clip]] in
  Forall2 (synthesized narrowband) two_turns segments
  /\ fst (stitch_conversation_elevenlabs narrowband two_turns fresh)
     = Ok (interleave segments [200%nat])
  /\ map chunk_ms (interleave segments [200%nat]) = [104; 200; 104]%nat
  /\ map (duration narrowband) segments = [104; 104]%nat
  /\ duration narrowband (interleave segments [200%nat]) = 409%nat
  /\ duration narrowband (interleave segments [200%nat])
     <> (list_sum (map (duration narrowband) segments) + list_sum [200])%nat.
Proof.
  cbv zeta. split; [repeat constructor; intro w; reflexivity|].
  split; [reflexivity|].
  split; [vm_compute; reflexivity|].
  split; [vm_compute; reflexivity|].
  split; [vm_compute; reflexivity|].
  vm_compute. discriminate.
Qed.

(** The same at 44100 Hz, whatever the resampler makes of the 2205
    frames of the pause, within a quarter of a millisecond of 200 ms:
    the clips last 947 ms each ([round(947.48)]) and the track 2095 ms,
    not 947 + 947 + 200 = 2094 ms. *)
Lemma stitch_conversation_elevenlabs_duration_resampled
    (resample : N -> N -> N -> N) :
  (8810 <= resample 2205 11025 44100 <= 8830)%N ->
  let segments := [[Speech (lit "Hello there") wideband_clip];
                   [Speech (lit "Hi!") wideband_clip]] in
  fst (stitch_conversation_elevenlabs (wideband resample) two_turns fresh)
  = Ok (interleave segments [200%nat])
  /\ map chunk_ms (interleave segments [200%nat]) = [947; 200; 947]%nat
  /\ duration (wideband resample) (interleave segments [200%nat]) = 2095%nat.
Proof.
  intros Hk. cbv zeta.
  split; [reflexivity|]. split; [vm_compute; reflexivity|].
  unfold duration.
  change (samples (wideband resample)
            (interleave [[Speech (lit "Hello there") wideband_clip];
                         [Speech (lit "Hi!") wideband_clip]] [200%nat]))
    with {| channels := 1; sample_width := 2; frame_rate := 44100;
            frame_count := (41784 + resample 2205 11025 44100 + 41784)%N |}.
  assert (E : exists j, (j <= 20)%nat
                        /\ resample 2205%N 11025%N 44100%N = (8810 + N.of_nat j)%N).
  { exists (N.to_nat (resample 2205 11025 44100 - 8810)%N). lia. }
  destruct E as (j & Hj & ->).
  do 21 (destruct j as [|j]; [vm_compute; reflexivity|]).
  lia.
Qed.

(** The track of the two turns: one pause, of 250 ms, between the clips. *)
Example stitch_two_turns :
  fst (stitch_conversation_elevenlabs studio two_turns fresh)
  = Ok [Speech (lit "Hello there") (recorded (lit "Hello there"));
        Silence 250;
        Speech (lit "Hi!") (recorded (lit "Hi!"))].
Proof. reflexivity. Qed.

End PipelineFacts.

(** ** More on the normalizer *)

Module NormalizerMore.
Import Text Normalizer NormalForm Shapes TextFacts NormalizerFacts.

Lemma no_pair_adjacent p q s a b :
  no_pair p q s = true -> adjacent a b s -> p a && q b = false.
Proof.
  intros H (pre & post & ->). induction pre as [|c pre IH].
  - simpl in H. apply andb_prop in H as [H _]. now apply negb_true_iff.
  - apply IH. eapply no_pair_tail, H.
Qed.

Lemma no_citation_no_marker s : no_citation s = true -> ~ has_marker s.
Proof.
  intros H (pre & mid & post & ->). induction pre as [|c pre IH].
  - cbn [app] in H. rewrite no_citation_cons in H.
    replace (is_char lbracket lbracket) with true in H by reflexivity.
    apply andb_prop in H as [H _]. apply negb_true_iff in H.
    rewrite existsb_app in H. cbn [existsb] in H.
    replace (is_char rbracket rbracket) with true in H by reflexivity.
    rewrite orb_true_r in H. discriminate.
  - apply IH. cbn [app] in H. rewrite no_citation_cons in H.
    now apply andb_prop in H as [_ H].
Qed.

(** X1. In the output of the normalizer no character of [[a-z]] is
    directly followed by one of [[A-Z]], no [.], [,], [;] or [:] by one
    of [[A-Za-z]], no character of [[A-Za-z]] by one of [[0-9]] and none
    of [[0-9]] by one of [[A-Za-z]]: the letters are the 52 ASCII letters
    and the digits the ten ASCII digits, as in the patterns of the
    code. *)
Theorem clean_wikipedia_text_no_fusion (t : text) (a b : ascii) :
  adjacent a b (clean_wikipedia_text t) ->
  is_lower a && is_upper b = false
  /\ is_punct a && is_letter b = false
  /\ is_letter a && is_digit b = false
  /\ is_digit a && is_letter b = false.
Proof.
  intro H. destruct (clean_wikipedia_text_normalized t) as [_ H2 H3 H4 H5 _ _].
  repeat split; eapply no_pair_adjacent; eassumption.
Qed.

Lemma clean_wikipedia_text_no_fusion_witness :
  adjacent "1"%char " "%char (clean_wikipedia_text (lit "its1Republic,is"))
  /\ is_digit "1"%char && is_letter " "%char = false.
Proof.
  assert (A : adjacent "1"%char " "%char (clean_wikipedia_text (lit "its1Republic,is"))).
  { exists (lit "its "), (lit "Republic, is"). reflexivity. }
  split; [exact A|].
  apply (clean_wikipedia_text_no_fusion _ _ _ A).
Defined.


Lemma normal_spaces s :
  no_space_after_space s = true ->
  Forall (fun c => is_space c = true -> c = space) s
  /\ no_pair is_space is_space s = true.
Proof.
  induction s as [|c r IH]; [split; [constructor | reflexivity]|].
  rewrite no_space_after_space_cons. intros [H1 H2]%andb_prop.
  destruct (IH H2) as [IH1 IH2]. split.
  - constructor; [|exact IH1]. intro E. rewrite E in H1.
    apply andb_prop in H1 as [H1 _]. now apply is_char_eq in H1.
  - destruct r as [|d r]; [reflexivity|].
    rewrite no_pair_cons, IH2, andb_true_r.
    destruct (is_space c); [|reflexivity].
    apply andb_prop in H1 as [_ H1]. now rewrite (proj1 (negb_true_iff _) H1).
Qed.

(** X2. In the output of the normalizer the only white space is the
    blank, no blank is directly followed by another one, and neither the
    first nor the last character is white space. *)
Theorem clean_wikipedia_text_single_blanks (t : text) :
  Forall (fun c => is_space c = true -> c = " "%char) (clean_wikipedia_text t)
  /\ (forall a b, adjacent a b (clean_wikipedia_text t) ->
                  is_space a && is_space b = false)
  /\ trimmed (clean_wikipedia_text t).
Proof.
  destruct (clean_wikipedia_text_normalized t) as [_ _ _ _ _ H6 H7].
  destruct (normal_spaces _ H6) as [A B].
  split; [exact A|]. split.
  - intros a b. now apply no_pair_adjacent.
  - rewrite <- H7. apply ParserFacts.strip_trimmed.
Qed.

(** *** What the normalizer keeps *)

Lemma ink_app a b : ink (a ++ b) = ink a ++ ink b.
Proof. apply List.filter_app. Qed.

Lemma ink_space c s : is_space c = true -> ink (c :: s) = ink s.
Proof. intro H. unfold ink. simpl. now rewrite H. Qed.

Lemma ink_insert_space p q s : ink (insert_space p q s) = ink s.
Proof.
  induction s as [| a | a b r IHr IHbr] using text_ind2; try reflexivity.
  rewrite insert_space_cons. destruct (p a && q b).
  - unfold ink in *. cbn [List.filter]. rewrite IHr.
    replace (is_space space) with true by reflexivity. reflexivity.
  - unfold ink in *. cbn [List.filter] in *. now rewrite IHbr.
Qed.

Lemma ink_scan_spaces b s : ink (scan_spaces b s) = ink s.
Proof.
  revert b. induction s as [|c r IH]; intro b; [reflexivity|].
  cbn [scan_spaces]. destruct (is_space c) eqn:E.
  - rewrite (ink_space c r E). destruct b; [apply IH|].
    rewrite (ink_space space _ eq_refl). apply IH.
  - unfold ink in *. cbn [List.filter]. now rewrite E, IH.
Qed.

Lemma ink_drop_while s : ink (drop_while is_space s) = ink s.
Proof.
  induction s as [|c r IH]; [reflexivity|].
  cbn [drop_while]. destruct (is_space c) eqn:E; [|reflexivity].
  now rewrite (ink_space c r E).
Qed.

Lemma ink_all_space s : forallb is_space s = true -> ink s = [].
Proof.
  induction s as [|c r IH]; [reflexivity|].
  cbn [forallb]. intros [Hc Hr]%andb_prop. rewrite (ink_space c r Hc). auto.
Qed.

Lemma ink_rstrip s : ink (rstrip s) = ink s.
Proof.
  destruct (LineFacts.rstrip_split s) as (w & E & Hw).
  rewrite E at 2. now rewrite ink_app, (ink_all_space w Hw), app_nil_r.
Qed.

Lemma ink_strip s : ink (strip s) = ink s.
Proof. unfold strip, lstrip. now rewrite ink_rstrip, ink_drop_while. Qed.

Lemma ink_clean t : ink (clean_wikipedia_text t) = ink (remove_citations t).
Proof.
  unfold clean_wikipedia_text, collapse_spaces.
  now rewrite ink_strip, ink_scan_spaces, !ink_insert_space.
Qed.

(** X3. Apart from the citation markers it removes, the normalizer
    changes white space only: the characters of the output that are not
    white space are those of the text without its markers, in order. The
    output holds no marker: no opening bracket with a closing bracket
    somewhere after it. *)
Theorem clean_wikipedia_text_keeps_ink (t : text) :
  ink (clean_wikipedia_text t) = ink (remove_citations t)
  /\ ~ has_marker (clean_wikipedia_text t).
Proof.
  split; [apply ink_clean|].
  apply no_citation_no_marker, (clean_wikipedia_text_normalized t).
Qed.

(** *** Lengths *)

Lemma scan_citations_length s :
  (length (scan_citations None s) <= length s)%nat
  /\ forall buf, (length (scan_citations (Some buf) s) <= length buf + length s)%nat.
Proof.
  induction s as [|c r [IH1 IH2]]; split.
  - reflexivity.
  - intro buf. cbn [scan_citations length]. rewrite length_rev. lia.
  - cbn [scan_citations length]. destruct (is_char lbracket c).
    + exact (IH2 [c]).
    + cbn [length]. lia.
  - intro buf. cbn [scan_citations length]. destruct (is_char rbracket c).
    + lia.
    + etransitivity; [apply (IH2 (c :: buf))|]. cbn [length]. lia.
Qed.

Lemma ink_length s : (length (ink s) <= length s)%nat.
Proof. apply List.filter_length_le. Qed.

Lemma normal_length s :
  no_space_after_space s = true ->
  (length s <= 2 * length (ink s)
               + match s with
                 | c :: _ => if is_space c then 1 else 0
                 | [] => 0
                 end)%nat.
Proof.
  induction s as [|c r IH]; [simpl; lia|].
  rewrite no_space_after_space_cons. intros [H1 H2]%andb_prop.
  specialize (IH H2). destruct (is_space c) eqn:E.
  - rewrite (ink_space c r E). apply andb_prop in H1 as [_ H1].
    destruct r as [|d r]; [simpl; lia|].
    apply negb_true_iff in H1. rewrite H1 in IH. simpl length in *. lia.
  - unfold ink in *. cbn [List.filter]. rewrite E. cbn [negb length].
    destruct r as [|d r]; [simpl; lia|].
    destruct (is_space d); simpl length in *; lia.
Qed.

(** X4. The normalizer at most doubles the length of a text. *)
Theorem clean_wikipedia_text_length (t : text) :
  (length (clean_wikipedia_text t) <= 2 * length t)%nat.
Proof.
  destruct (clean_wikipedia_text_normalized t) as [_ _ _ _ _ H6 H7].
  pose proof (normal_length _ H6) as L.
  pose proof (proj1 (ParserFacts.strip_trimmed (clean_wikipedia_text t))) as T.
  rewrite H7 in T.
  assert (E : match clean_wikipedia_text t with
              | c :: _ => if is_space c then 1 else 0
              | [] => 0
              end = 0%nat).
  { destruct (clean_wikipedia_text t) as [|c r]; [reflexivity|].
    now rewrite (T c r eq_refl). }
  rewrite E, ink_clean in L.
  pose proof (ink_length (remove_citations t)).
  pose proof (proj1 (scan_citations_length t)). unfold remove_citations in *. lia.
Qed.

(** The bound is reached but for one character. *)
Example clean_wikipedia_text_length_7 :
  clean_wikipedia_text (lit "a1b2") = lit "a 1 b 2".
Proof. reflexivity. Qed.

End NormalizerMore.

(** ** More on the transcript parser *)

Module ParserMore.
Import Text Parser ParserSpec Shapes TextFacts LineFacts ParserFacts.

Lemma split_lines_newline a b :
  split_lines (a ++ newline :: b) = split_lines a ++ split_lines b.
Proof.
  induction a as [|c a IH]; [reflexivity|].
  cbn [app split_lines]. rewrite IH.
  destruct (is_char newline c); [reflexivity|].
  pose proof (split_lines_nonempty a).
  destruct (split_lines a); [congruence | reflexivity].
Qed.

(** X5. The parser works line by line: the turns of two scripts joined by
    a newline are the turns of the first followed by the turns of the
    second. *)
Theorem parse_conversation_newline (a b : text) :
  parse_conversation (a ++ newline :: b)
  = parse_conversation a ++ parse_conversation b.
Proof.
  rewrite !parse_conversation_turns_of. unfold turns_of.
  now rewrite split_lines_newline, flat_map_app.
Qed.

(** X6. The parser yields at most one turn per line of the script. *)
Theorem parse_conversation_at_most_one_per_line (script : text) :
  (length (parse_conversation script) <= length (split_lines script))%nat.
Proof.
  rewrite parse_conversation_turns_of. unfold turns_of.
  induction (split_lines script) as [|l ls IH]; [reflexivity|].
  cbn [flat_map]. rewrite length_app. cbn [length].
  destruct (turn_of_line l); cbn [length]; lia.
Qed.

Lemma split_lines_no_newline_id s :
  existsb (is_char newline) s = false -> split_lines s = [s].
Proof.
  induction s as [|c r IH]; [reflexivity|].
  cbn [existsb split_lines]. intros [Hc Hr]%orb_false_elim.
  now rewrite Hc, (IH Hr).
Qed.

Lemma split_join_lines lines :
  lines <> [] ->
  Forall (fun l => existsb (is_char newline) l = false) lines ->
  split_lines (join_lines lines) = lines.
Proof.
  intros Hne H. induction H as [|l ls Hl Hls IH]; [congruence|].
  destruct ls as [|l2 ls].
  - now apply split_lines_no_newline_id.
  - change (join_lines (l :: l2 :: ls)) with (l ++ newline :: join_lines (l2 :: ls)).
    rewrite split_lines_newline, IH by discriminate.
    now rewrite split_lines_no_newline_id.
Qed.

Lemma render_turn_no_newline t :
  well_formed t -> existsb (is_char newline) (render_turn t) = false.
Proof.
  intros (_ & _ & _ & H). unfold render_turn.
  rewrite existsb_app. cbn [existsb]. rewrite existsb_app, H.
  destruct (String.eqb (fst t) "speaker1"); reflexivity.
Qed.

(** A rendered turn is read back. *)
Lemma turn_of_line_render t :
  well_formed t -> turn_of_line (render_turn t) = Some t.
Proof.
  destruct t as [id u]. intros (Hid & Hne & Hs & _). cbn [fst snd] in *.
  unfold turn_of_line, labelled, render_turn. cbn [fst snd].
  assert (E : forall d, is_12 d = true -> is_space d = false ->
            match
              match match_literal_ci (lit "Speaker")
                      (lstrip (lit "Speaker" ++ d :: lit ": " ++ u)) with
              | Some (_, r) =>
                  match drop_while is_space r with
                  | d0 :: c :: rest =>
                      if is_12 d0 && is_char ":"%char c then Some (d0, rest)
                      else None
                  | _ => None
                  end
              | None => None
              end
            with
            | Some (d0, rest) =>
                match strip rest with
                | [] => None
                | c :: r => Some (speaker_of d0, c :: r)
                end
            | None => None
            end = Some (speaker_of d, u)).
  { intros d D12 Dsp.
    change (lstrip (lit "Speaker" ++ d :: lit ": " ++ u))
      with (lit "Speaker" ++ d :: lit ": " ++ u).
    change (match_literal_ci (lit "Speaker") (lit "Speaker" ++ d :: lit ": " ++ u))
      with (Some (lit "Speaker", d :: lit ": " ++ u)).
    cbn [drop_while]. rewrite Dsp.
    change (lit ": " ++ u) with (":"%char :: " "%char :: u).
    rewrite D12. replace (is_char ":"%char ":"%char) with true by reflexivity.
    cbn [andb].
    assert (S : strip (" "%char :: u) = u).
    { rewrite <- Hs at 2. unfold strip, lstrip. cbn [drop_while].
      now replace (is_space " "%char) with true by reflexivity. }
    rewrite S. destruct u; [congruence | reflexivity]. }
  destruct Hid as [-> | ->]; cbn [String.eqb]; rewrite E; reflexivity.
Qed.

(** X7. A transcript in the expected shape is read back: rendering
    well-formed turns as lines [Speaker1: text] and [Speaker2: text] and
    parsing the result gives the turns again. *)
Theorem parse_conversation_render (turns : list turn) :
  Forall well_formed turns -> parse_conversation (render turns) = turns.
Proof.
  intro H. rewrite parse_conversation_turns_of. unfold turns_of, render.
  destruct turns as [|t ts]; [reflexivity|].
  rewrite split_join_lines.
  - induction H as [|t' ts' Ht _ IH]; [reflexivity|].
    cbn [map flat_map]. now rewrite (turn_of_line_render t' Ht), IH.
  - discriminate.
  - apply Forall_map. eapply List.Forall_impl; [|exact H].
    intros t' Ht. now apply render_turn_no_newline.
Qed.

Lemma parse_conversation_render_witness :
  Forall well_formed PipelineSpec.two_turns
  /\ parse_conversation
       (lit "Speaker1: Hello there" ++ newline :: lit "Speaker2: Hi!")
     = PipelineSpec.two_turns.
Proof.
  assert (W : Forall well_formed PipelineSpec.two_turns).
  { repeat constructor; cbn; auto; discriminate. }
  split; [exact W|].
  exact (parse_conversation_render PipelineSpec.two_turns W).
Defined.

End ParserMore.

(** ** More on the content extractor *)

Module ExtractorMore.
Import Text Dom Extractor ExtractorSpec Documents MoreDocuments.
Import TextFacts ParserFacts ExtractorFacts.

(** X8. Without a title element the selected headings are the first three
    [h2] headings, in document order, whose text is neither empty nor
    ["Contents"]. *)
Theorem extract_headings_untitled (doc : soup) :
  title_element doc = None ->
  extract_headings doc
  = map (pair "H2"%string)
      (firstn 3 (List.filter eligible (map get_text (find_all ["h2"%string] doc)))).
Proof.
  unfold title_element, extract_headings. intros ->.
  now rewrite h2_loop_spec by (simpl; lia).
Qed.

Lemma extract_headings_untitled_witness :
  title_element sections_doc = None
  /\ extract_headings sections_doc
     = [("H2"%string, lit "History"); ("H2"%string, lit "Habitat");
        ("H2"%string, lit "Diet")].
Proof.
  assert (T : title_element sections_doc = None) by (vm_compute; reflexivity).
  split; [exact T|].
  rewrite (extract_headings_untitled sections_doc T). vm_compute. reflexivity.
Defined.

(** *** Texts without outer white space *)

Lemma nonempty_last (s : text) : s <> [] -> exists r c, s = r ++ [c].
Proof.
  intro H. destruct (exists_last H) as (r & c & E). eauto.
Qed.

Lemma concat_trimmed (ls : list text) :
  Forall (fun l => l <> [] /\ trimmed l) ls -> trimmed (concat ls).
Proof.
  induction 1 as [|l ls [Hne [Hf Hl]] Hls [IHf IHl]]; [split; intros; [discriminate|]|].
  - destruct r; discriminate.
  - split.
    + intros c r E. destruct l as [|c0 l0]; [congruence|].
      cbn [concat app] in E. injection E as <- _. now apply (Hf c0 l0).
    + intros r c E. cbn [concat] in E.
      destruct (concat ls) as [|d ds] eqn:C.
      * rewrite app_nil_r in E. now apply (Hl r c).
      * destruct (nonempty_last (d :: ds)) as (r' & c' & E'); [discriminate|].
        rewrite E', app_assoc in E. apply app_inj_tail in E as [_ <-].
        now apply (IHl r' c').
Qed.

Lemma stripped_strings_trimmed n :
  Forall (fun l => l <> [] /\ trimmed l) (stripped_strings n).
Proof.
  unfold stripped_strings. induction (descendants n) as [|d ds IH]; [constructor|].
  cbn [flat_map]. apply Forall_app. split; [|exact IH].
  destruct d as [s|]; [|constructor].
  destruct (strip s) eqn:E; constructor; [|constructor].
  split; [discriminate|]. rewrite <- E. apply strip_trimmed.
Qed.

Lemma get_text_trimmed n : trimmed (get_text n).
Proof. apply concat_trimmed, stripped_strings_trimmed. Qed.

Lemma h2_loop_invariant (P : heading -> Prop) h2_tags : forall headings,
  Forall P headings ->
  (forall h2, eligible (get_text h2) = true -> P ("H2"%string, get_text h2)) ->
  Forall P (h2_loop headings h2_tags).
Proof.
  induction h2_tags as [|h2 rest IH]; intros headings H Hp; [exact H|].
  cbn [h2_loop]. destruct (3 <=? length headings)%nat; [exact H|].
  fold (eligible (get_text h2)). destruct (eligible (get_text h2)) eqn:E.
  - apply IH; [|exact Hp]. apply Forall_app. split; [exact H|].
    constructor; [now apply Hp | constructor].
  - now apply IH.
Qed.

Lemma h2_loop_length h2_tags : forall headings,
  (length headings <= 3)%nat -> (length (h2_loop headings h2_tags) <= 3)%nat.
Proof.
  induction h2_tags as [|h2 rest IH]; intros headings H; [exact H|].
  cbn [h2_loop]. destruct (3 <=? length headings)%nat eqn:C; [exact H|].
  apply Nat.leb_gt in C.
  destruct (_ && _); apply IH; [|exact H].
  rewrite length_app. simpl. lia.
Qed.

(** X9. Whatever the document, at most three headings are selected; the
    title of each has no white space at either end, and each ["H2"]
    heading has a title that is neither empty nor ["Contents"]. *)
Theorem extract_headings_titles (doc : soup) :
  (length (extract_headings doc) <= 3)%nat
  /\ Forall (fun h : heading =>
               trimmed (snd h)
               /\ (fst h = "H2"%string ->
                   snd h <> [] /\ snd h <> lit "Contents"))
       (extract_headings doc).
Proof.
  unfold extract_headings. split.
  - apply h2_loop_length. destruct (find_attr _ _ _ doc); simpl; lia.
  - apply h2_loop_invariant.
    + destruct (find_attr _ _ _ doc); constructor; [|constructor].
      split; [apply get_text_trimmed | discriminate].
    + intros h2 E. split; [apply get_text_trimmed|]. intros _.
      unfold eligible in E. apply andb_prop in E as [E1 E2].
      apply negb_true_iff, bool_decide_eq_false in E1, E2. now split.
Qed.

(** *** The lines of the content *)

Lemma collect_In start_node end_node tags : forall started txt,
  In txt (collect start_node end_node started tags) ->
  exists tag, In tag tags /\ is_paragraph tag = true
              /\ txt = get_text tag /\ (50 < length txt)%nat.
Proof.
  induction tags as [|t rest IH]; intros started txt H; [destruct H|].
  cbn [collect] in H.
  assert (R : forall b, In txt (collect start_node end_node b rest) ->
              exists tag, In tag (t :: rest) /\ is_paragraph tag = true
                          /\ txt = get_text tag /\ (50 < length txt)%nat).
  { intros b Hb. destruct (IH b txt Hb) as (tag & Hin & Hrest).
    exists tag. split; [now right | exact Hrest]. }
  destruct (node_eqb t start_node); [now apply (R true)|].
  destruct started; [|now apply (R false)].
  destruct (has_name ["h1"%string; "h2"%string] t && negb (node_eqb t end_node));
    [destruct H|].
  destruct (has_name ["p"%string] t) eqn:P; [|now apply (R true)].
  destruct (50 <? length (get_text t))%nat eqn:L; [|now apply (R true)].
  destruct H as [<- | H]; [|now apply (R true)].
  exists t. repeat split; [now left | exact P | now apply Nat.ltb_lt].
Qed.

Lemma join_lines_length p ps : (length p <= length (join_lines (p :: ps)))%nat.
Proof.
  destruct ps; cbn [join_lines]; [lia|]. rewrite length_app. lia.
Qed.

(** X10. The extracted content is made of texts of [p] tags of the
    document, each longer than 50 characters and without white space at
    either end, joined by newlines; so it is empty or longer than 50
    characters. *)
Theorem extract_combined_content_lines (doc : soup) (headings : list heading) :
  (exists lines,
      extract_combined_content doc headings = join_lines lines
      /\ Forall (fun txt =>
                   (50 < length txt)%nat /\ trimmed txt
                   /\ exists tag, In tag (find_all ["p"%string] doc)
                                  /\ txt = get_text tag) lines)
  /\ (extract_combined_content doc headings = []
      \/ (50 < length (extract_combined_content doc headings))%nat).
Proof.
  assert (A : exists lines,
      extract_combined_content doc headings = join_lines lines
      /\ Forall (fun txt =>
                   (50 < length txt)%nat /\ trimmed txt
                   /\ exists tag, In tag (find_all ["p"%string] doc)
                                  /\ txt = get_text tag) lines).
  { unfold extract_combined_content.
    destruct headings as [|first rest]; [exists []; split; [reflexivity | constructor]|].
    destruct (locate doc first) as [s|]; [|exists []; split; [reflexivity | constructor]].
    destruct (locate doc (List.last (first :: rest) first)) as [e|];
      [|exists []; split; [reflexivity | constructor]].
    eexists. split; [reflexivity|].
    apply List.Forall_forall. intros txt Hin.
    destruct (collect_In _ _ _ _ _ Hin) as (tag & Ht & Hp & -> & Hl).
    split; [exact Hl|]. split; [apply get_text_trimmed|].
    exists tag. split; [|reflexivity].
    unfold find_all in *. apply filter_In in Ht as [Ht _].
    apply filter_In. split; [exact Ht | exact Hp]. }
  split; [exact A|].
  destruct A as (lines & -> & H).
  destruct H as [|p ps [Hp _] _]; [now left | right].
  pose proof (join_lines_length p ps). lia.
Qed.

End ExtractorMore.

(** ** More on speech synthesis and stitching *)

Module PipelineMore.
Import Text Parser Pipeline PipelineSpec Shapes PipelineFacts.

(** X11. With a credential, a speaker id other than ["speaker1"] and
    ["speaker2"] makes the speech synthesizer raise [KeyError] before it
    sends anything. *)
Theorem tts_turn_elevenlabs_unknown_speaker
    (out : outside) (key txt : text) (speaker_id : string) (w : world) :
  key_of (ELEVENLABS_API_KEY out) = Some key ->
  speaker_id <> "speaker1"%string -> speaker_id <> "speaker2"%string ->
  tts_turn_elevenlabs out txt speaker_id w = (Raise (KeyError speaker_id), w).
Proof.
  intros K H1 H2. unfold tts_turn_elevenlabs. rewrite K.
  assert (V : VOICE_MAP !! speaker_id = None).
  { unfold VOICE_MAP. rewrite lookup_insert_ne by congruence.
    now rewrite lookup_singleton_ne by congruence. }
  now rewrite V.
Qed.

Lemma tts_turn_elevenlabs_unknown_speaker_witness :
  tts_turn_elevenlabs studio (lit "Hello") "Speaker1" fresh
  = (Raise (KeyError "Speaker1"), fresh).
Proof.
  apply (tts_turn_elevenlabs_unknown_speaker studio (lit "xi-test"));
    [reflexivity | discriminate | discriminate].
Defined.

(** X12. With a credential and a speaker that has a voice, the speech
    synthesizer sends exactly one request, for the text, to the URL of the
    voice, and draws no random number; when the answer has a status other
    than 200 it raises ["ElevenLabs TTS failed"], whatever the answer
    holds. *)
Theorem tts_turn_elevenlabs_one_request
    (out : outside) (key txt : text) (speaker_id voice_id : string) (w : world) :
  key_of (ELEVENLABS_API_KEY out) = Some key ->
  VOICE_MAP !! speaker_id = Some voice_id ->
  snd (tts_turn_elevenlabs out txt speaker_id w)
  = log (HttpPost (speech_request key voice_id txt)) w
  /\ forall resp,
       tts_service out (speech_request key voice_id txt) = inr resp ->
       status_code resp <> 200%nat ->
       fst (tts_turn_elevenlabs out txt speaker_id w)
       = Raise (Exception "ElevenLabs TTS failed").
Proof.
  intros K V. unfold tts_turn_elevenlabs. rewrite K, V.
  fold (speech_request key voice_id txt).
  unfold bind, requests_post, outcome. split.
  - destruct (tts_service out _) as [|resp]; [reflexivity|].
    destruct (negb _); [reflexivity|].
    unfold of_result, outcome. destruct (decode_mp3 out _); reflexivity.
  - intros resp -> Hs. apply Nat.eqb_neq in Hs. now rewrite Hs.
Qed.

Lemma tts_turn_elevenlabs_one_request_witness :
  snd (tts_turn_elevenlabs studio (lit "Hi!") "speaker2" fresh)
  = {| events := [HttpPost (speech_request (lit "xi-test") "OtEfb2LVzIE45wdYe54M"
                              (lit "Hi!"))];
       draws := 0 |}.
Proof.
  apply (proj1 (tts_turn_elevenlabs_one_request studio (lit "xi-test") (lit "Hi!")
                  "speaker2" "OtEfb2LVzIE45wdYe54M" fresh eq_refl eq_refl)).
Defined.

(** *** The events of stitching *)

(** The synthesis of a turn adds its events to the world, and is
    otherwise the same in every world. *)
Lemma tts_turn_elevenlabs_frame out t w :
  tts_turn_elevenlabs out (snd t) (fst t) w
  = (fst (attempt out t),
     {| events := events w ++ added out t; draws := draws w |}).
Proof.
  unfold added, attempt, tts_turn_elevenlabs. destruct w as [ev dr].
  destruct (key_of (ELEVENLABS_API_KEY out));
    [|cbn; now rewrite app_nil_r].
  destruct (VOICE_MAP !! fst t); [|cbn; now rewrite app_nil_r].
  unfold bind, requests_post, outcome, log.
  destruct (tts_service out _) as [|resp]; [reflexivity|].
  destruct (negb _); [reflexivity|].
  unfold of_result, outcome. destruct (decode_mp3 out _); reflexivity.
Qed.

Lemma synthesized_attempt out t segment :
  synthesized out t segment -> fst (attempt out t) = Ok segment.
Proof. intro H. apply H. Qed.

Lemma fails_attempt out t e : fails out t e -> fst (attempt out t) = Raise e.
Proof. intro H. apply H. Qed.

Section Loop.
Variable out : outside.

(** The loop on turns that are all synthesized. *)
Lemma stitch_loop_run rest : forall segments n i final_audio w,
  Forall2 (synthesized out) rest segments ->
  (i + length rest = n)%nat ->
  stitch_loop out n i rest final_audio w
  = (Ok (final_audio
         ++ interleave segments (pauses_drawn out (draws w) (length rest - 1))),
     {| events := events w ++ flat_map (added out) rest;
        draws := draws w + (length rest - 1) |}).
Proof.
  induction rest as [|t rest IH]; intros segments n i final_audio w F Hn.
  - inversion F; subst. destruct w as [ev dr]. cbn.
    rewrite !app_nil_r. do 2 f_equal. lia.
  - inversion F as [|t' segment rest' segments' Hs F']; subst.
    destruct t as [speaker txt]. cbn [stitch_loop]. unfold bind at 1.
    pose proof (tts_turn_elevenlabs_frame out (speaker, txt) w) as Fr.
    cbn [fst snd] in Fr. rewrite Fr. clear Fr.
    rewrite (synthesized_attempt _ _ _ Hs).
    destruct rest as [|t2 rest].
    + inversion F'; subst.
      replace (Z.of_nat i <? Z.of_nat (i + length [(speaker, txt)]) - 1)%Z
        with false by (symmetry; apply Z.ltb_ge; simpl; lia).
      cbn. rewrite !app_nil_r. do 2 f_equal. lia.
    + replace (Z.of_nat i <? Z.of_nat (i + length ((speaker, txt) :: t2 :: rest)) - 1)%Z
        with true by (symmetry; apply Z.ltb_lt; simpl; lia).
      unfold bind, natural_pause_ms, random_choice.
      change (length pause_choices) with 5%nat. cbn [events draws].
      rewrite (IH segments' (i + length ((speaker, txt) :: t2 :: rest))%nat (S i))
        by (try exact F'; simpl; lia).
      cbn [events draws]. inversion F'; subst.
      cbn [length Nat.sub]. rewrite !Nat.sub_0_r.
      unfold pauses_drawn at 2. cbn [seq map].
      fold (pauses_drawn out (S (draws w)) (length rest)).
      rewrite interleave_cons. cbn [flat_map].
      rewrite <- !app_assoc. do 2 f_equal. lia.
Qed.

(** The loop on turns of which one fails, after turns that are
    synthesized. *)
Lemma stitch_loop_abort good : forall segments bad rest e n i final_audio w,
  Forall2 (synthesized out) good segments ->
  fails out bad e ->
  (i + length (good ++ bad :: rest) = n)%nat ->
  stitch_loop out n i (good ++ bad :: rest) final_audio w
  = (Raise e,
     {| events := events w ++ flat_map (added out) (good ++ [bad]);
        draws := draws w + length good |}).
Proof.
  induction good as [|t good IH];
    intros segments bad rest e n i final_audio w F Hb Hn.
  - destruct bad as [speaker txt]. cbn [app stitch_loop]. unfold bind at 1.
    pose proof (tts_turn_elevenlabs_frame out (speaker, txt) w) as Fr.
    cbn [fst snd] in Fr. rewrite Fr. clear Fr.
    rewrite (fails_attempt _ _ _ Hb). cbn. rewrite app_nil_r.
    do 2 f_equal. lia.
  - inversion F as [|t' segment good' segments' Hs F']; subst.
    destruct t as [speaker txt]. cbn [app stitch_loop]. unfold bind at 1.
    pose proof (tts_turn_elevenlabs_frame out (speaker, txt) w) as Fr.
    cbn [fst snd] in Fr. rewrite Fr. clear Fr.
    rewrite (synthesized_attempt _ _ _ Hs).
    match goal with
    | |- context [(?a <? ?b)%Z] =>
        replace (a <? b)%Z with true
          by (symmetry; apply Z.ltb_lt; cbn [length];
              rewrite ?length_app; cbn [length]; lia)
    end.
    unfold bind, natural_pause_ms, random_choice. cbn [events draws].
    erewrite IH; [| eassumption | eassumption | cbn [length]; lia].
    cbn [events draws app flat_map length].
    rewrite <- !app_assoc. do 2 f_equal. lia.
Qed.

End Loop.

(** X13. When every turn is synthesized, stitching adds to the world the
    events of the turns, in turn order, and nothing else, and draws one
    random number for each turn but the last. *)
Theorem stitch_conversation_elevenlabs_events
    (out : outside) (turns : list (string * text)) (segments : list audio)
    (w : world) :
  Forall2 (synthesized out) turns segments ->
  snd (stitch_conversation_elevenlabs out turns w)
  = {| events := events w ++ flat_map (added out) turns;
       draws := draws w + (length turns - 1) |}.
Proof.
  intro F. unfold stitch_conversation_elevenlabs.
  now rewrite (stitch_loop_run out turns segments (length turns) 0 (silent 0) w F).
Qed.

Lemma stitch_conversation_elevenlabs_events_witness :
  snd (stitch_conversation_elevenlabs studio two_turns fresh)
  = {| events :=
         [HttpPost (speech_request (lit "xi-test") "3AMU7jXQuQa3oRvRqUmb"
                      (lit "Hello there"));
          HttpPost (speech_request (lit "xi-test") "OtEfb2LVzIE45wdYe54M"
                      (lit "Hi!"))];
       draws := 1 |}.
Proof.
  rewrite (stitch_conversation_elevenlabs_events studio two_turns
             [[Speech (lit "Hello there") (recorded (lit "Hello there"))];
              [Speech (lit "Hi!") (recorded (lit "Hi!"))]]).
  - reflexivity.
  - repeat constructor; intro w; reflexivity.
Defined.

(** X14. A failed synthesis aborts stitching: when the turns before a
    turn are synthesized and that turn fails, stitching raises its error,
    no track is returned, and the world holds the events of the turns up
    to that one only: nothing is sent for the turns after it. *)
Theorem stitch_conversation_elevenlabs_aborts
    (out : outside) (good : list (string * text)) (segments : list audio)
    (bad : string * text) (rest : list (string * text)) (e : exn) (w : world) :
  Forall2 (synthesized out) good segments ->
  fails out bad e ->
  stitch_conversation_elevenlabs out (good ++ bad :: rest) w
  = (Raise e,
     {| events := events w ++ flat_map (added out) (good ++ [bad]);
        draws := draws w + length good |}).
Proof.
  intros F Hb. unfold stitch_conversation_elevenlabs.
  now apply (stitch_loop_abort out good segments).
Qed.

Lemma stitch_conversation_elevenlabs_aborts_witness :
  stitch_conversation_elevenlabs studio
    ([("speaker1"%string, lit "Hello there")]
     ++ ("narrator"%string, lit "Meanwhile") :: [("speaker2"%string, lit "Hi!")])
    fresh
  = (Raise (KeyError "narrator"),
     {| events :=
          [HttpPost (speech_request (lit "xi-test") "3AMU7jXQuQa3oRvRqUmb"
                       (lit "Hello there"))];
        draws := 1 |}).
Proof.
  rewrite (stitch_conversation_elevenlabs_aborts studio
             [("speaker1"%string, lit "Hello there")]
             [[Speech (lit "Hello there") (recorded (lit "Hello there"))]]
             ("narrator"%string, lit "Meanwhile") _ (KeyError "narrator")).
  - reflexivity.
  - repeat constructor; intro w; reflexivity.
  - intro w. reflexivity.
Defined.

End PipelineMore.

(** ** The stages *)

Module StageFacts.
Import Text Dom Extractor Normalizer Parser ParserSpec Pipeline PipelineSpec.
Import ExtractorSpec Shapes Stages StageShapes TextFacts LineFacts ParserFacts.

(** *** From script to audio *)

Lemma parse_conversation_voices script :
  Forall (fun t : turn => is_Some (VOICE_MAP !! fst t)) (parse_conversation script).
Proof.
  rewrite parse_conversation_turns_of. unfold turns_of.
  induction (split_lines script) as [|l ls IH]; [constructor|].
  cbn [flat_map]. apply Forall_app. split; [|exact IH].
  unfold turn_of_line. destruct (labelled l) as [[d rest]|]; [|constructor].
  destruct (strip rest); constructor; [|constructor].
  unfold speaker_of. cbn [fst]. destruct (is_char "1"%char d); vm_compute; eauto.
Qed.

Lemma stitch_loop_no_KeyError out rest : forall n i final_audio w k,
  Forall (fun t : string * text => is_Some (VOICE_MAP !! fst t)) rest ->
  fst (stitch_loop out n i rest final_audio w) <> Raise (KeyError k).
Proof.
  induction rest as [|[speaker txt] rest IH]; intros n i final_audio w k H.
  - discriminate.
  - inversion H as [|t ts Hv Hrest]; subst. cbn [fst] in Hv.
    cbn [stitch_loop]. unfold bind at 1.
    pose proof (tts_turn_elevenlabs_KeyError out txt speaker w) as E.
    destruct (tts_turn_elevenlabs out txt speaker w) as [[segment|e] w1].
    + destruct (_ <? _)%Z; [|now apply IH].
      unfold bind, natural_pause_ms, random_choice. now apply IH.
    + cbn [fst] in *. intros [= ->]. rewrite (E k eq_refl) in Hv.
      now destruct Hv.
Qed.

(** X15. Audio generation from a script never raises [KeyError]: the
    parser yields only speakers that have a voice. *)
Theorem generate_mp3_from_script_no_KeyError
    (out : outside) (script : text) (w : world) (k : string) :
  fst (generate_mp3_from_script out script w) <> Raise (KeyError k).
Proof.
  unfold generate_mp3_from_script, stitch_conversation_elevenlabs.
  apply stitch_loop_no_KeyError, parse_conversation_voices.
Qed.

Lemma existsb_split_lines (f : ascii -> bool) s :
  existsb f s = false -> Forall (fun l => existsb f l = false) (split_lines s).
Proof.
  induction s as [|c r IH]; [repeat constructor|].
  cbn [existsb split_lines]. intros [Hc Hr]%orb_false_elim. specialize (IH Hr).
  destruct (is_char newline c); [constructor; auto|].
  destruct (split_lines r) as [|l ls]; [repeat constructor; simpl; now rewrite Hc|].
  inversion IH; subst. constructor; [|assumption].
  simpl. now rewrite Hc.
Qed.

Lemma existsb_drop_while (f p : ascii -> bool) s :
  existsb f s = false -> existsb f (drop_while p s) = false.
Proof.
  intro H. rewrite (drop_while_split p s), existsb_app in H.
  now apply orb_false_elim in H.
Qed.

(** A line that yields a turn holds a colon. *)
Lemma turn_of_line_colon l :
  existsb (is_char ":"%char) l = false -> turn_of_line l = None.
Proof.
  intro H. unfold turn_of_line, labelled.
  apply (existsb_drop_while _ is_space) in H. fold (lstrip l) in H.
  destruct (match_literal_ci (lit "Speaker") (lstrip l)) as [[m r]|] eqn:M;
    [|reflexivity].
  apply match_literal_ci_split in M as [E _]. rewrite E, existsb_app in H.
  apply orb_false_elim in H as [_ H].
  apply (existsb_drop_while _ is_space) in H.
  destruct (drop_while is_space r) as [|d [|c rest]]; try reflexivity.
  cbn [existsb] in H. apply orb_false_elim in H as [_ H].
  apply orb_false_elim in H as [H _]. now rewrite H, andb_false_r.
Qed.

(** X16. A script without any colon has no turn: audio generation returns
    the empty track and leaves the world as it is, with or without a
    credential. *)
Theorem generate_mp3_from_script_no_colon
    (out : outside) (script : text) (w : world) :
  existsb (is_char ":"%char) script = false ->
  parse_conversation script = []
  /\ generate_mp3_from_script out script w = (Ok [], w).
Proof.
  intro H.
  assert (E : parse_conversation script = []).
  { rewrite parse_conversation_turns_of. unfold turns_of.
    pose proof (existsb_split_lines _ _ H) as F.
    induction F as [|l ls Hl _ IH]; [reflexivity|].
    cbn [flat_map]. now rewrite (turn_of_line_colon l Hl), IH. }
  split; [exact E|]. unfold generate_mp3_from_script. now rewrite E.
Qed.

Lemma generate_mp3_from_script_no_colon_witness :
  generate_mp3_from_script no_credentials (lit "Speaker1 says hello") fresh
  = (Ok [], fresh).
Proof.
  apply (generate_mp3_from_script_no_colon no_credentials). reflexivity.
Defined.


(** *** From page to script *)

(** What the script generator does with a credential. *)
Lemma generate_script_from_content_run out content prefix key w :
  key_of (OPENAI_API_KEY out) = Some key ->
  generate_script_from_content out content prefix w
  = (match chat_service out (completion_request key (prompt content prefix)) with
     | inr answer => Ok (strip answer)
     | inl what => Raise (Propagated what)
     end,
     log (ChatCompletion (completion_request key (prompt content prefix)))
       (log (OpenAIClient key) w)).
Proof.
  intro H. unfold generate_script_from_content. rewrite H.
  unfold bind, OpenAI, chat_completions_create, ret, outcome.
  replace (match prefix with
           | Some (c :: r) =>
               (c :: r) ++ newline :: newline :: lit "Content:" ++ newline :: content
           | _ => lit "Content:" ++ newline :: content
           end) with (prompt content prefix)
    by (destruct prefix as [[|c r]|]; reflexivity).
  fold (completion_request key (prompt content prefix)).
  destruct (chat_service out _); reflexivity.
Qed.

(** X17. Script generation from a page first asks for the page, once, with
    the browser headers, and exports no audio. When the page cannot be
    fetched the failure is propagated and no remote call is made; when
    the page is fetched and the credential is absent the configuration
    error is raised, again without any remote call. *)
Theorem generate_script_from_wikipedia_fetches_first
    (out : outside) (around : surroundings) (wiki_url : text)
    (prompt_template : option text) (s : server) :
  let run := generate_script_from_wikipedia out around wiki_url prompt_template s in
  fetched (snd run) = fetched s ++ [page_request wiki_url]
  /\ exported (snd run) = exported s
  /\ (forall what,
        requests_get around (page_request wiki_url) = inl what ->
        fst run = Raise (Propagated what) /\ calls (snd run) = calls s)
  /\ (forall doc,
        requests_get around (page_request wiki_url) = inr doc ->
        key_of (OPENAI_API_KEY out) = None ->
        fst run = Raise (Exception "OPENAI_API_KEY not set")
        /\ calls (snd run) = calls s).
Proof.
  unfold generate_script_from_wikipedia, bindS, fetch_wikipedia_content, lift, retS.
  fold (page_request wiki_url). cbn zeta.
  destruct (requests_get around (page_request wiki_url)) as [what|doc];
    cbn [outcome calls fetched exported fst snd].
  - split; [reflexivity|]. split; [reflexivity|]. split.
    + intros ? [= <-]. split; reflexivity.
    + discriminate.
  - destruct (generate_script_from_content out _ prompt_template (calls s))
      as [[script|e] w] eqn:G; cbn [fst snd fetched exported calls].
    all: split; [reflexivity|]; split; [reflexivity|]; split; [discriminate|].
    all: intros doc' [= <-] K; unfold generate_script_from_content in G;
      rewrite K in G; injection G as G1 G2; try discriminate.
    subst. split; reflexivity.
Qed.

(** X18. When the page is fetched and the credential is present, script
    generation from a page builds one client and submits one completion
    request, whose prompt carries the normalized content extracted from
    the page, and returns the trimmed answer or propagates the failure of
    the call. The content is sent whatever it is: when nothing can be
    extracted, the request is made with an empty content. *)
Theorem generate_script_from_wikipedia_request
    (out : outside) (around : surroundings) (wiki_url : text)
    (prompt_template : option text) (s : server) (doc : soup) (key : text) :
  requests_get around (page_request wiki_url) = inr doc ->
  key_of (OPENAI_API_KEY out) = Some key ->
  let request := completion_request key (prompt (content_of_page doc) prompt_template) in
  generate_script_from_wikipedia out around wiki_url prompt_template s
  = (match chat_service out request with
     | inr answer => Ok (strip answer)
     | inl what => Raise (Propagated what)
     end,
     {| fetched := fetched s ++ [page_request wiki_url];
        exported := exported s;
        calls := log (ChatCompletion request) (log (OpenAIClient key) (calls s)) |})
  /\ clean_wikipedia_text (content_of_page doc) = content_of_page doc
  /\ (boundary_nodes doc (extract_headings doc) = None -> content_of_page doc = []).
Proof.
  intros G K request. split; [|split].
  - unfold generate_script_from_wikipedia, bindS, fetch_wikipedia_content, lift, retS.
    fold (page_request wiki_url). rewrite G. cbn [outcome calls fetched exported].
    fold (content_of_page doc).
    rewrite (generate_script_from_content_run out _ _ key _ K).
    fold request. destruct (chat_service out request); reflexivity.
  - apply NormalizerFacts.clean_wikipedia_text_fixed,
      NormalizerFacts.clean_wikipedia_text_normalized.
  - intro B. unfold content_of_page.
    replace (extract_combined_content doc (extract_headings doc)) with (@nil ascii);
      [reflexivity|].
    unfold boundary_nodes, extract_combined_content in *.
    destruct (extract_headings doc) as [|first rest]; [reflexivity|].
    destruct (locate doc first); [|reflexivity].
    destruct (locate doc (List.last (first :: rest) first));
      [discriminate | reflexivity].
Qed.


Lemma generate_script_from_wikipedia_fetches_first_witness :
  generate_script_from_wikipedia studio wikipedia (lit "https://example.org/") None idle
  = (Raise (Propagated "404 Client Error: Not Found"),
     {| fetched := [page_request (lit "https://example.org/")];
        exported := []; calls := fresh |})
  /\ generate_script_from_wikipedia no_credentials wikipedia fox_url None idle
     = (Raise (Exception "OPENAI_API_KEY not set"),
        {| fetched := [page_request fox_url]; exported := []; calls := fresh |}).
Proof.
  pose proof (generate_script_from_wikipedia_fetches_first studio wikipedia
                (lit "https://example.org/") None idle) as (F1 & S1 & E1 & _).
  pose proof (generate_script_from_wikipedia_fetches_first no_credentials wikipedia
                fox_url None idle) as (F2 & S2 & _ & E2).
  destruct (E1 _ eq_refl) as [R1 C1]. destruct (E2 _ eq_refl eq_refl) as [R2 C2].
  split.
  - destruct (generate_script_from_wikipedia studio wikipedia _ None idle)
      as [r [f sv c]]. cbn in *. now subst.
  - destruct (generate_script_from_wikipedia no_credentials wikipedia _ None idle)
      as [r [f sv c]]. cbn in *. now subst.
Defined.

Lemma generate_script_from_wikipedia_request_witness :
  generate_script_from_wikipedia studio wikipedia fox_url (Some (lit "Be brief.")) idle
  = (Ok (lit "Speaker1: Hello there" ++ newline :: lit "Speaker2: Hi!"),
     {| fetched := [page_request fox_url];
        exported := [];
        calls :=
          {| events :=
               [OpenAIClient (lit "sk-test");
                ChatCompletion
                  (completion_request (lit "sk-test")
                     (lit "Be brief." ++ [newline; newline] ++ lit "Content:"
                      ++ [newline] ++ lit Documents.fox))];
             draws := 0 |} |}).
Proof.
  destruct (generate_script_from_wikipedia_request studio wikipedia fox_url
              (Some (lit "Be brief.")) idle Documents.article_doc (lit "sk-test")
              eq_refl eq_refl) as (E & _ & _).
  rewrite E. vm_compute. reflexivity.
Defined.

(** *** The one-shot pipeline *)

(** X19. The one-shot pipeline does what the two stages do one after the
    other: it returns the script of the first stage and the audio that the
    second stage makes of that script, with the same effects, and it
    fails where they fail. *)
Theorem process_wikipedia_url_stages
    (out : outside) (around : surroundings) (wiki_url : text)
    (prompt_template : option text) (s : server) :
  process_wikipedia_url out around wiki_url prompt_template s
  = (script <-- generate_script_from_wikipedia out around wiki_url prompt_template ;;
     final_audio <-- lift (generate_mp3_from_script out script) ;;
     retS (script, final_audio)) s.
Proof.
  unfold process_wikipedia_url, generate_script_from_wikipedia,
    generate_mp3_from_script, bindS, fetch_wikipedia_content, lift, retS.
  destruct (requests_get around _); cbn [outcome calls fetched exported]; [reflexivity|].
  destruct (generate_script_from_content out _ prompt_template (calls s))
    as [[script|e] w]; reflexivity.
Qed.

Lemma generate_script_from_content_trimmed out content prefix w script :
  fst (generate_script_from_content out content prefix w) = Ok script ->
  trimmed script.
Proof.
  unfold generate_script_from_content.
  destruct (key_of (OPENAI_API_KEY out)); [|discriminate].
  unfold bind, OpenAI, chat_completions_create, ret, outcome.
  destruct (chat_service out _); [discriminate|].
  cbn [fst]. intros [= <-]. apply strip_trimmed.
Qed.

End StageFacts.

(** ** The routes *)

Module AppFacts.
Import Text Pipeline PipelineSpec Shapes Stages StageShapes App.
Import TextFacts ParserFacts StageFacts.

(** X20. The route [/generate-script] answers a missing or blank URL with
    status 400 and does nothing. Otherwise it asks once for the page at
    the URL without its outer white space and answers 200 or 500; it
    never exports audio. An answer 200 carries the script that the first
    stage returned, which has no white space at either end. *)
Theorem generate_script_route
    (out : outside) (around : surroundings) (PROMPT_TEMPLATE : option text)
    (data : gmap string text) (s : server) :
  let wiki_url := strip (get "wiki_url" data) in
  let run := generate_script out around PROMPT_TEMPLATE data s in
  exported (snd run) = exported s
  /\ (wiki_url = [] -> run = (error (lit "Wikipedia URL is required") 400, s))
  /\ (wiki_url <> [] ->
      fetched (snd run) = fetched s ++ [page_request wiki_url]
      /\ (snd (fst run) = 200%nat \/ snd (fst run) = 500%nat))
  /\ (snd (fst run) = 200%nat ->
      exists script,
        fst (generate_script_from_wikipedia out around wiki_url PROMPT_TEMPLATE s)
        = Ok script
        /\ fst (fst run) !! "script"%string = Some (JString script)
        /\ trimmed script).
Proof.
  intros wiki_url run. subst run. unfold generate_script. fold wiki_url.
  pose proof (generate_script_from_wikipedia_fetches_first out around wiki_url
                PROMPT_TEMPLATE s) as (F & S & _ & _).
  destruct wiki_url as [|c u] eqn:U.
  - unfold error. cbn [fst snd]. repeat split; try discriminate; congruence.
  - pose proof (fun script => generate_script_from_content_trimmed out
                  (content_of_page match requests_get around (page_request (c :: u)) with
                                   | inr doc => doc
                                   | inl _ => []
                                   end) PROMPT_TEMPLATE (calls s) script) as T.
    unfold generate_script_from_wikipedia, bindS, fetch_wikipedia_content, lift, retS
      in F, S, T |- *.
    fold (page_request (c :: u)) in F, S, T |- *.
    destruct (requests_get around (page_request (c :: u))) as [what|doc];
      cbn [outcome calls fetched exported fst snd] in *.
    + unfold error. cbn [fst snd]. repeat split; try discriminate; auto.
    + unfold content_of_page in T.
      destruct (generate_script_from_content out _ PROMPT_TEMPLATE (calls s))
        as [[script|e] w]; cbn [fst snd fetched exported calls] in *.
      * repeat split; try discriminate; auto.
        intros _. exists script. repeat split; auto; now apply T.
      * unfold error. cbn [fst snd]. repeat split; try discriminate; auto.
Qed.


Lemma generate_script_route_witness :
  generate_script studio wikipedia None
    {[ "wiki_url"%string := lit "   " ]} idle
  = (error (lit "Wikipedia URL is required") 400, idle)
  /\ fetched (snd (generate_script studio wikipedia None
                     {[ "wiki_url"%string := lit " https://en.wikipedia.org/wiki/Fox " ]}
                     idle))
     = [page_request fox_url].
Proof.
  split.
  - destruct (generate_script_route studio wikipedia None
                {[ "wiki_url"%string := lit "   " ]} idle) as (_ & H & _).
    apply H. reflexivity.
  - destruct (generate_script_route studio wikipedia None
                {[ "wiki_url"%string := lit " https://en.wikipedia.org/wiki/Fox " ]}
                idle) as (_ & _ & H & _).
    destruct H as [H _]; [discriminate|]. exact H.
Defined.

(** X21. The route [/generate-mp3] answers a missing or blank script with
    status 400 and does nothing. It never asks for a page. When the second
    stage fails on the script without its outer white space, the route
    answers 500 with the text of the error and starts no export. An
    answer 200 means that the stage made a track, that this track, and
    nothing else, was exported to [static/audio/generated_audio.mp3], and
    that the reported duration is the length of the track divided by
    1000. *)
Theorem generate_mp3_route
    (out : outside) (around : surroundings) (data : gmap string text)
    (s : server) :
  let script := strip (get "script" data) in
  let run := generate_mp3 out around data s in
  fetched (snd run) = fetched s
  /\ (script = [] -> run = (error (lit "Script is required") 400, s))
  /\ (script <> [] ->
      forall e,
        fst (generate_mp3_from_script out script (calls s)) = Raise e ->
        fst run = error (str e) 500 /\ exported (snd run) = exported s)
  /\ (snd (fst run) = 200%nat ->
      exists final_audio,
        fst (generate_mp3_from_script out script (calls s)) = Ok final_audio
        /\ exported (snd run)
           = exported s ++ [("static/audio/generated_audio.mp3"%string, final_audio)]
        /\ fst (fst run) !! "duration"%string
           = Some (JNumber (Qmake (Z.of_nat (duration out final_audio)) 1000))).
Proof.
  intros script run. subst run. unfold generate_mp3. fold script.
  destruct script as [|c u] eqn:U.
  - unfold error. cbn [fst snd]. repeat split; try discriminate; congruence.
  - unfold bindS, lift, export, retS.
    destruct (generate_mp3_from_script out (c :: u) (calls s)) as [[final_audio|e] w];
      cbn [fst snd fetched exported calls].
    + destruct (export_mp3 around _ final_audio) as [what|[]];
        unfold error; cbn [outcome fst snd fetched exported calls].
      * split; [reflexivity|]. split; [discriminate|]. split; [|discriminate].
        intros _ e' [=].
      * split; [reflexivity|]. split; [discriminate|]. split.
        -- intros _ e' [=].
        -- intros _. exists final_audio. repeat split.
    + unfold error. cbn [fst snd].
      split; [reflexivity|]. split; [discriminate|]. split; [|discriminate].
      intros _ e' [= <-]. split; reflexivity.
Qed.

Lemma generate_mp3_route_witness :
  generate_mp3 studio wikipedia ∅ idle
  = (error (lit "Script is required") 400, idle)
  /\ exported (snd (generate_mp3 studio wikipedia
                      {[ "script"%string := lit " Speaker1: Hello there " ]} idle))
     = [("static/audio/generated_audio.mp3"%string,
         [Speech (lit "Hello there") (recorded (lit "Hello there"))])].
Proof.
  split.
  - destruct (generate_mp3_route studio wikipedia ∅ idle) as (_ & H & _).
    apply H. reflexivity.
  - destruct (generate_mp3_route studio wikipedia
                {[ "script"%string := lit " Speaker1: Hello there " ]} idle)
      as (_ & _ & _ & H).
    destruct (H eq_refl) as (final_audio & E & S & _).
    rewrite S. vm_compute in E. injection E as <-. reflexivity.
Defined.

End AppFacts.

(** ** Fixed points of the normalizer *)

Module NormalizerFixed.
Import Text Normalizer NormalForm NormalizerFacts.

(** X22. The texts that the normalizer leaves unchanged are exactly the
    texts in normal form: no [[] with a []] somewhere after it, no
    character of [[a-z]] directly followed by one of [[A-Z]], no [.],
    [,], [;] or [:] by one of [[A-Za-z]], none of [[A-Za-z]] by one of
    [[0-9]], none of [[0-9]] by one of [[A-Za-z]], single blanks as the
    only white space, and no white space at either end.  The letters are
    the 52 ASCII letters and the digits the ten ASCII digits. *)
Theorem clean_wikipedia_text_fixed_iff (t : text) :
  clean_wikipedia_text t = t <-> normalized t.
Proof.
  split.
  - intros <-. apply clean_wikipedia_text_normalized.
  - apply clean_wikipedia_text_fixed.
Qed.

End NormalizerFixed.
